(** * Bundle adjustment helpers of [sfm.hpp]: a shallow embedding

    The header defines two Ceres residual functors
    ([ReprojectionError11DOF], [ReprojectionError7DOF]) and the class [SFM]
    with the composite visibility key ([genKey], [getImIdx], [getPtIdx]), the
    residual builders ([addCostFunc11DOF], [addCostFunc7DOF],
    [addCostFunc6DOF]) and the outlier marker ([markNoisyPoints]).

    Conventions of the embedding:
    - [uint] is a 32-bit unsigned integer: a [Z] in [0, 2^32) with the
      wrap-around written out;
    - [double] is IEEE 754 binary64: the primitive type [float], whose
      operations are specified by [FloatAxioms] over [SpecFloat]; every
      operation rounds to nearest on its own (no fused multiply-add, no
      extended precision);
    - [std::vector] is a [list], read with [!!] and written with [<[_:=_]>];
      an index outside the vector is undefined behaviour in C++ and makes
      the embedded function return [None];
    - [std::unordered_map<uint, uint>] is given by the sequence of entries
      its iterator enumerates, an association list whose order is arbitrary
      (the keys of a map are pairwise distinct; no theorem needs it);
    - [cv::Rodrigues], the [cv::Matx33d * cv::Point3d] product and
      [ceres::AngleAxisRotatePoint] belong to OpenCV and Ceres: they are
      section variables, and every theorem holds for whatever they compute. *)

From Stdlib Require Import ZArith Lia Bool List.
From Stdlib Require Import Floats.
From stdpp Require Import base option list.

Local Open Scope Z_scope.

(** ** Composite visibility key (sfm.hpp, lines 100-104) *)

Module Key.

Definition uint_max : Z := 2 ^ 32.

(** [x] is a value of type [uint]. *)
Definition is_uint (x : Z) : Prop := 0 <= x < uint_max.

(** Unsigned 32-bit left shift and addition. *)
Definition shl32 (x n : Z) : Z := Z.shiftl x n mod uint_max.
Definition add32 (x y : Z) : Z := (x + y) mod uint_max.

(** [static inline uint genKey(uint img_idx, uint pt_idx)
      { return ((img_idx << 16) + pt_idx); }] *)
Definition genKey (img_idx pt_idx : Z) : Z := add32 (shl32 img_idx 16) pt_idx.

(** [static inline uint getImIdx(uint key) { return ((key >> 16) & 0xFFFF); }] *)
Definition getImIdx (key : Z) : Z := Z.land (Z.shiftr key 16) 65535.

(** [static inline uint getPtIdx(uint key) { return (key & 0xFFFF); }] *)
Definition getPtIdx (key : Z) : Z := Z.land key 65535.

End Key.

(** ** Classes of [double] values (IEEE 754 binary64) *)

Module Double.

Ltac zfold :=
  change IntDef.Z.add with Z.add in *;
  change IntDef.Z.sub with Z.sub in *;
  change IntDef.Z.max with Z.max in *;
  change IntDef.Z.min with Z.min in *;
  change IntDef.Z.leb with Z.leb in *;
  change IntDef.Z.eqb with Z.eqb in *.

(** [z == 0]: true of both signed zeros. *)
Definition is_zero (z : float) : bool := (z =? 0)%float.

(** Neither an infinity nor NaN. *)
Definition is_finite (z : float) : bool :=
  match Prim2SF z with
  | S754_zero _ | S754_finite _ _ _ => true
  | _ => false
  end.

End Double.

(** ** OpenCV value types

    Only the members the header reads are kept. The arithmetic operators
    are the component-wise ones of OpenCV's [Point_] and [Point3_]. *)

Module Point2d.
Record t := mk { x : float; y : float }.

Definition add (a b : t) : t := mk (x a + x b)%float (y a + y b)%float.
Definition sub (a b : t) : t := mk (x a - x b)%float (y a - y b)%float.
(** [double * Point2d] *)
Definition scale (a : float) (b : t) : t := mk (x b * a)%float (y b * a)%float.
End Point2d.

Module Point3d.
Record t := mk { x : float; y : float; z : float }.

Definition add (a b : t) : t :=
  mk (x a + x b)%float (y a + y b)%float (z a + z b)%float.

(** The point read through a pointer to its three doubles, as in the
    cast of [&Xs[i]] that the builders register. *)
Definition get (p : t) (i : nat) : float :=
  match i with O => x p | 1%nat => y p | _ => z p end.

(** [X.z *= -1] *)
Definition negate_z (p : t) : t := mk (x p) (y p) (z p * -1)%float.
End Point3d.

(** [cv::KeyPoint]: the header reads the member [pt] only, and binds it to
    a [cv::Point2d]; the conversion from single precision is exact, and the
    model stores the converted coordinates. *)
Record KeyPoint := { pt : Point2d.t }.

(** [typedef cv::Vec<double, 11> Vec11d]: rotation (0-2), translation (3-5),
    focal length (6), principal point (7-8), radial distortion (9-10). *)
Module Vec11d.
Local Open Scope nat_scope.

Record t := mk { v0 : float; v1 : float; v2 : float; v3 : float;
                 v4 : float; v5 : float; v6 : float; v7 : float;
                 v8 : float; v9 : float; v10 : float }.

(** [view[i]], for the constant indices 0..10 the header uses. *)
Definition get (v : t) (i : nat) : float :=
  match i with
  | 0 => v0 v | 1 => v1 v | 2 => v2 v | 3 => v3 v | 4 => v4 v | 5 => v5 v
  | 6 => v6 v | 7 => v7 v | 8 => v8 v | 9 => v9 v | _ => v10 v
  end.
End Vec11d.


(** ** The scalar type of the residual functors

    [operator()] is a template over [T]: Ceres instantiates it with
    [double] and with its jets. The functors use [T(double)], [+], [-],
    [*] and [/]. *)

Class Scalar (T : Type) := {
  of_double : float -> T;
  s_add : T -> T -> T;
  s_sub : T -> T -> T;
  s_mul : T -> T -> T;
  s_div : T -> T -> T
}.

Declare Scope scalar_scope.
Delimit Scope scalar_scope with T.
Infix "+" := s_add : scalar_scope.
Infix "-" := s_sub : scalar_scope.
Infix "*" := s_mul : scalar_scope.
Infix "/" := s_div : scalar_scope.

#[global] Instance Scalar_double : Scalar float := {
  of_double := fun d => d;
  s_add := PrimFloat.add;
  s_sub := PrimFloat.sub;
  s_mul := PrimFloat.mul;
  s_div := PrimFloat.div
}.

(** ** Residual functors (sfm.hpp, lines 13-90) *)

Section Functors.
Context {T : Type} `{Scalar T}.
Local Open Scope scalar_scope.

(** [p.[i]] is the subscript [p[i]] on a pointer to scalars. *)
Local Notation "p .[ i ]" := (p i%nat)
  (at level 1, left associativity, only parsing).

(** [ceres::AngleAxisRotatePoint(angle_axis, pt, result)]: reads three
    values of each argument and writes three results. *)
Variable AngleAxisRotatePoint : T * T * T -> T * T * T -> T * T * T.

(** [struct ReprojectionError11DOF { const cv::Point2d x; }] *)
Record ReprojectionError11DOF := { x11 : Point2d.t }.

(** Lines 20-38 of [operator()]: the predicted pixel [(x_p, y_p)]. *)
Definition ReprojectionError11DOF_predict (camera point : nat -> T) : T * T :=
  (* X' = R*X + t *)
  let '(X0, X1, X2) :=
    AngleAxisRotatePoint (camera.[0], camera.[1], camera.[2])
                         (point.[0], point.[1], point.[2]) in
  let X0 := X0 + camera.[3] in
  let X1 := X1 + camera.[4] in
  let X2 := X2 + camera.[5] in
  (* x' = K*X' with radial distortion *)
  let f := camera.[6] in
  let cx := camera.[7] in
  let cy := camera.[8] in
  let k1 := camera.[9] in
  let k2 := camera.[10] in
  let x_n := X0 / X2 in
  let y_n := X1 / X2 in
  let r2 := x_n * x_n + y_n * y_n in
  let radial_distort := of_double 1 + r2 * (k1 + k2 * r2) in
  let x_p := f * radial_distort * x_n + cx in
  let y_p := f * radial_distort * y_n + cy in
  (x_p, y_p).

(** [bool operator()(camera, point, residuals)]: the returned flag and the
    two residuals written. *)
Definition ReprojectionError11DOF_call (self : ReprojectionError11DOF)
    (camera point : nat -> T) : bool * (T * T) :=
  let '(x_p, y_p) := ReprojectionError11DOF_predict camera point in
  (* residual = x - x' *)
  (true, (of_double (Point2d.x (x11 self)) - x_p,
          of_double (Point2d.y (x11 self)) - y_p)).

(** [struct ReprojectionError7DOF { const cv::Point2d x; const cv::Point2d c; }] *)
Record ReprojectionError7DOF := { x7 : Point2d.t; c7 : Point2d.t }.

(** Lines 64-74 of [operator()]: the predicted pixel. The principal point
    is the member [c], a [double] converted to [T] by the mixed addition. *)
Definition ReprojectionError7DOF_predict (self : ReprojectionError7DOF)
    (camera point : nat -> T) : T * T :=
  let '(X0, X1, X2) :=
    AngleAxisRotatePoint (camera.[0], camera.[1], camera.[2])
                         (point.[0], point.[1], point.[2]) in
  let X0 := X0 + camera.[3] in
  let X1 := X1 + camera.[4] in
  let X2 := X2 + camera.[5] in
  let f := camera.[6] in
  let x_p := f * X0 / X2 + of_double (Point2d.x (c7 self)) in
  let y_p := f * X1 / X2 + of_double (Point2d.y (c7 self)) in
  (x_p, y_p).

Definition ReprojectionError7DOF_call (self : ReprojectionError7DOF)
    (camera point : nat -> T) : bool * (T * T) :=
  let '(x_p, y_p) := ReprojectionError7DOF_predict self camera point in
  (true, (of_double (Point2d.x (x7 self)) - x_p,
          of_double (Point2d.y (x7 self)) - y_p)).
End Functors.

(** [view.[i]] is the subscript [view[i]] on a [Vec11d]. *)
Notation "v .[ i ]" := (Vec11d.get v i%nat)
  (at level 1, left associativity, format "v .[ i ]").

(** ** The Ceres problem under construction

    [problem.AddResidualBlock(cost_func, loss_func, view, X)] appends one
    residual block. The two parameter blocks are registered by address:
    the model keeps the index of the camera in [views] and of the point in
    [Xs] that the address designates. *)

(** Modelled from the spec: the residual type [ReprojectionError] of the
    minimal camera model is defined in [bundle_adjustment.hpp], which is not
    part of the source tree. The spec leaves its parameter layout open, so
    its cost function is kept as the call
    [ReprojectionError::create(x, f, cx, cy)] with the arguments
    [addCostFunc6DOF] passes. The other two are the
    [ceres::AutoDiffCostFunction] wrappers that [create] returns. *)
Inductive CostFunction :=
| AutoDiff11DOF (functor : ReprojectionError11DOF)
| AutoDiff7DOF (functor : ReprojectionError7DOF)
| ReprojectionError_create (x : Point2d.t) (f cx cy : float).

Inductive LossFunction :=
| CauchyLoss (a : float).

Record ResidualBlock := {
  cost_func : CostFunction;
  loss_func : option LossFunction;
  view_block : nat;
  X_block : nat
}.

Definition Problem := list ResidualBlock.

Definition AddResidualBlock (problem : Problem) (cost : CostFunction)
    (loss : option LossFunction) (view X : nat) : Problem :=
  problem ++ [Build_ResidualBlock cost loss view X].

(** A [for] loop over a container whose body may hit undefined behaviour. *)
Fixpoint for_each {S E : Type} (body : S -> E -> option S) (l : list E) (s : S)
    : option S :=
  match l with
  | [] => Some s
  | e :: l' => s' ← body s e; for_each body l' s'
  end.

(** ** class SFM (sfm.hpp, lines 92-188) *)

Module SFM.
Import Key.

(** [typedef std::unordered_map<uint, uint> VisibilityGraph]: the entries
    [(visible->first, visible->second)] in the order [begin()] to [end()]
    visits them. *)
Definition VisibilityGraph := list (Z * Z).

(** The creation of the loss function, common to the three builders:
    [if (loss_width > 0) loss_func = new ceres::CauchyLoss(loss_width)]. *)
Definition make_loss (loss_width : float) : option LossFunction :=
  if (0 <? loss_width)%float then Some (CauchyLoss loss_width) else None.

(** Body of the loop of [addCostFunc11DOF] (lines 110-117). *)
Definition addCostFunc11DOF_body (Xs : list Point3d.t)
    (xs : list (list KeyPoint)) (views : list Vec11d.t) (loss_width : float)
    (problem : Problem) (visible : Z * Z) : option Problem :=
  let img_idx := Z.to_nat (getImIdx visible.1) in
  let pt_idx := Z.to_nat (getPtIdx visible.1) in
  _ ← Xs !! Z.to_nat visible.2;
  kps ← xs !! img_idx;
  kp ← kps !! pt_idx;
  let x := pt kp in
  _ ← views !! img_idx;
  let cost_func := AutoDiff11DOF {| x11 := x |} in
  let loss_func := make_loss loss_width in
  Some (AddResidualBlock problem cost_func loss_func img_idx (Z.to_nat visible.2)).

Definition addCostFunc11DOF (problem : Problem) (Xs : list Point3d.t)
    (xs : list (list KeyPoint)) (views : list Vec11d.t)
    (visibility : VisibilityGraph) (loss_width : float)
    : option (bool * Problem) :=
  problem' ← for_each (addCostFunc11DOF_body Xs xs views loss_width)
                      visibility problem;
  Some (true, problem').

(** Body of the loop of [addCostFunc7DOF] (lines 126-133). *)
Definition addCostFunc7DOF_body (Xs : list Point3d.t)
    (xs : list (list KeyPoint)) (views : list Vec11d.t) (loss_width : float)
    (problem : Problem) (visible : Z * Z) : option Problem :=
  let img_idx := Z.to_nat (getImIdx visible.1) in
  let pt_idx := Z.to_nat (getPtIdx visible.1) in
  _ ← Xs !! Z.to_nat visible.2;
  kps ← xs !! img_idx;
  kp ← kps !! pt_idx;
  let x := pt kp in
  view ← views !! img_idx;
  let cost_func :=
    AutoDiff7DOF {| x7 := x; c7 := Point2d.mk view.[7] view.[8] |} in
  let loss_func := make_loss loss_width in
  Some (AddResidualBlock problem cost_func loss_func img_idx (Z.to_nat visible.2)).

Definition addCostFunc7DOF (problem : Problem) (Xs : list Point3d.t)
    (xs : list (list KeyPoint)) (views : list Vec11d.t)
    (visibility : VisibilityGraph) (loss_width : float)
    : option (bool * Problem) :=
  problem' ← for_each (addCostFunc7DOF_body Xs xs views loss_width)
                      visibility problem;
  Some (true, problem').

(** Body of the loop of [addCostFunc6DOF] (lines 142-149). *)
Definition addCostFunc6DOF_body (Xs : list Point3d.t)
    (xs : list (list KeyPoint)) (views : list Vec11d.t) (loss_width : float)
    (problem : Problem) (visible : Z * Z) : option Problem :=
  let img_idx := Z.to_nat (getImIdx visible.1) in
  let pt_idx := Z.to_nat (getPtIdx visible.1) in
  _ ← Xs !! Z.to_nat visible.2;
  kps ← xs !! img_idx;
  kp ← kps !! pt_idx;
  let x := pt kp in
  view ← views !! img_idx;
  let cost_func := ReprojectionError_create x view.[6] view.[7] view.[8] in
  let loss_func := make_loss loss_width in
  Some (AddResidualBlock problem cost_func loss_func img_idx (Z.to_nat visible.2)).

Definition addCostFunc6DOF (problem : Problem) (Xs : list Point3d.t)
    (xs : list (list KeyPoint)) (views : list Vec11d.t)
    (visibility : VisibilityGraph) (loss_width : float)
    : option (bool * Problem) :=
  problem' ← for_each (addCostFunc6DOF_body Xs xs views loss_width)
                      visibility problem;
  Some (true, problem').

Section Marker.

(** [cv::Matx33d], [cv::Rodrigues(rvec, R)] and the product [R * X]. *)
Variable Matx33d : Type.
Variable Rodrigues : float * float * float -> Matx33d.
Variable Matx33d_mul : Matx33d -> Point3d.t -> Point3d.t.

(** Lines 167-180: the squared distance [d.x * d.x + d.y * d.y] between the
    observation [x] and the projection of [X] by the camera [view]. *)
Definition reproj_dist2 (view : Vec11d.t) (x : Point2d.t) (X : Point3d.t)
    : float :=
  (* Project the given 'X' *)
  let rvec := (view.[0], view.[1], view.[2]) in
  let R := Rodrigues rvec in
  let X_p := Point3d.add (Matx33d_mul R X)
                         (Point3d.mk view.[3] view.[4] view.[5]) in
  let f := view.[6] in
  let k1 := view.[9] in
  let k2 := view.[10] in
  let x_n := Point2d.mk (Point3d.x X_p / Point3d.z X_p)
                        (Point3d.y X_p / Point3d.z X_p) in
  let c := Point2d.mk view.[7] view.[8] in
  let r2 := (Point2d.x x_n * Point2d.x x_n + Point2d.y x_n * Point2d.y x_n)%float in
  let radial_distort := (1 + r2 * (k1 + k2 * r2))%float in
  let x_p := Point2d.add (Point2d.scale (f * radial_distort) x_n) c in
  (* Calculate distance between 'x' and 'x_p' *)
  let d := Point2d.sub x x_p in
  (Point2d.x d * Point2d.x d + Point2d.y d * Point2d.y d)%float.

(** Body of the loop of [markNoisyPoints] (lines 161-184), on the state
    made of the point vector and the counter [n_mark]. *)
Definition markNoisyPoints_body (xs : list (list KeyPoint))
    (views : list Vec11d.t) (reproj_error2 : float)
    (st : list Point3d.t * Z) (visible : Z * Z)
    : option (list Point3d.t * Z) :=
  let '(Xs, n_mark) := st in
  X ← Xs !! Z.to_nat visible.2;
  if (Point3d.z X <? 0)%float then Some (Xs, n_mark)   (* continue *)
  else
    let img_idx := Z.to_nat (getImIdx visible.1) in
    let pt_idx := Z.to_nat (getPtIdx visible.1) in
    kps ← xs !! img_idx;
    kp ← kps !! pt_idx;
    let x := pt kp in
    view ← views !! img_idx;
    if (reproj_error2 <? reproj_dist2 view x X)%float
    then Some (<[Z.to_nat visible.2 := Point3d.negate_z X]> Xs, n_mark + 1)
    else Some (Xs, n_mark).

(** [static int markNoisyPoints(Xs, xs, views, visibility, reproj_error2)]:
    the returned [int] and the point vector it leaves. The counter is a
    mathematical integer: it never exceeds the number of entries, so it
    stays an [int] as long as the map has at most [INT_MAX] entries. *)
Definition markNoisyPoints (Xs : list Point3d.t) (xs : list (list KeyPoint))
    (views : list Vec11d.t) (visibility : VisibilityGraph)
    (reproj_error2 : float) : option (Z * list Point3d.t) :=
  if (reproj_error2 <=? 0)%float then Some (-1, Xs)
  else
    '(Xs', n_mark) ← for_each (markNoisyPoints_body xs views reproj_error2)
                              visibility (Xs, 0);
    Some (n_mark, Xs').

End Marker.
End SFM.

(** ** Inputs without undefined behaviour

    The spec leaves entries whose indices fall outside the point, keypoint
    or camera storage undefined. [well_formed] is the decidable condition
    under which every subscript of the loops is in range. *)

(** The camera and the observation a visibility entry designates:
    [views[img_idx]] and [xs[img_idx][pt_idx].pt]. *)
Definition observation (xs : list (list KeyPoint)) (views : list Vec11d.t)
    (visible : Z * Z) : option (Vec11d.t * Point2d.t) :=
  let img_idx := Z.to_nat (Key.getImIdx visible.1) in
  let pt_idx := Z.to_nat (Key.getPtIdx visible.1) in
  kps ← xs !! img_idx;
  kp ← kps !! pt_idx;
  view ← views !! img_idx;
  Some (view, pt kp).

Definition entry_in_range (n_points : nat) (xs : list (list KeyPoint))
    (views : list Vec11d.t) (visible : Z * Z) : bool :=
  bool_decide (Z.to_nat visible.2 < n_points)%nat
  && bool_decide (is_Some (observation xs views visible)).

Definition well_formed (Xs : list Point3d.t) (xs : list (list KeyPoint))
    (views : list Vec11d.t) (visibility : SFM.VisibilityGraph) : bool :=
  forallb (entry_in_range (length Xs) xs views) visibility.

(** The validity flag of a point is the sign of its third coordinate:
    the marker skips the points with [X.z < 0]. *)
Definition invalid (X : Point3d.t) : bool := (Point3d.z X <? 0)%float.

(** What one call of the marker may do to a stored point: nothing, or one
    negation of the third coordinate of a point that was not invalid. *)
Definition mark_rel (X X' : Point3d.t) : Prop :=
  X' = X \/ (invalid X = false /\ X' = Point3d.negate_z X).

(** The third coordinate is not a zero ([X.z != 0]). *)
Definition nonzero_z (X : Point3d.t) : Prop :=
  Double.is_zero (Point3d.z X) = false.

(** The residual block a builder registers for one visibility entry, given
    the cost function it creates from the camera and the observation. *)
Definition residual_block (create : Vec11d.t -> Point2d.t -> CostFunction)
    (Xs : list Point3d.t) (xs : list (list KeyPoint)) (views : list Vec11d.t)
    (loss_width : float) (visible : Z * Z) : option ResidualBlock :=
  _ ← Xs !! Z.to_nat visible.2;
  vx ← observation xs views visible;
  Some {| cost_func := create vx.1 vx.2;
          loss_func := SFM.make_loss loss_width;
          view_block := Z.to_nat (Key.getImIdx visible.1);
          X_block := Z.to_nat visible.2 |}.

Definition create11DOF (view : Vec11d.t) (x : Point2d.t) : CostFunction :=
  AutoDiff11DOF {| x11 := x |}.

Definition create7DOF (view : Vec11d.t) (x : Point2d.t) : CostFunction :=
  AutoDiff7DOF {| x7 := x; c7 := Point2d.mk view.[7] view.[8] |}.

Definition create6DOF (view : Vec11d.t) (x : Point2d.t) : CostFunction :=
  ReprojectionError_create x view.[6] view.[7] view.[8].

(** ** Evaluation of a registered block

    Ceres evaluates a residual block by calling its functor on the
    parameter blocks registered with it, read from the storage as it is at
    that time. The block of [ReprojectionError_create] has its functor in
    the missing header and is not evaluated here. *)

Section Evaluate.
Variable AngleAxisRotatePoint :
  float * float * float -> float * float * float -> float * float * float.


End Evaluate.



(** ** Successive calls of the marker

    The pipeline calls the marker after each optimization round, on the
    same point vector and with the arguments of that round. *)

Record MarkCall := {
  call_xs : list (list KeyPoint);
  call_views : list Vec11d.t;
  call_visibility : SFM.VisibilityGraph;
  call_reproj_error2 : float
}.

Section Calls.
Variable Matx33d : Type.
Variable Rodrigues : float * float * float -> Matx33d.
Variable Matx33d_mul : Matx33d -> Point3d.t -> Point3d.t.

Definition markNoisyPoints_calls (calls : list MarkCall) (Xs : list Point3d.t)
    : option (list Point3d.t) :=
  for_each
    (fun Xs c =>
       r ← SFM.markNoisyPoints Matx33d Rodrigues Matx33d_mul Xs
             (call_xs c) (call_views c) (call_visibility c)
             (call_reproj_error2 c);
       Some r.2)
    calls Xs.

End Calls.

(** ** The library functions at a zero rotation

    The closed examples use cameras whose rotation vector is zero. There
    [cv::Rodrigues] returns the identity matrix and
    [ceres::AngleAxisRotatePoint] returns the point it is given; the
    product of a [Matx33d] and a [Point3d] accumulates each row from zero. *)

Module ZeroRotation.

Record Matx33d := {
  m00 : float; m01 : float; m02 : float;
  m10 : float; m11 : float; m12 : float;
  m20 : float; m21 : float; m22 : float
}.

Definition eye : Matx33d :=
  {| m00 := 1; m01 := 0; m02 := 0;
     m10 := 0; m11 := 1; m12 := 0;
     m20 := 0; m21 := 0; m22 := 1 |}.

Definition Rodrigues (rvec : float * float * float) : Matx33d := eye.

Definition Matx33d_mul (R : Matx33d) (X : Point3d.t) : Point3d.t :=
  let 'Point3d.mk x y z := X in
  Point3d.mk (0 + m00 R * x + m01 R * y + m02 R * z)%float
             (0 + m10 R * x + m11 R * y + m12 R * z)%float
             (0 + m20 R * x + m21 R * y + m22 R * z)%float.

Definition AngleAxisRotatePoint (angle_axis pt : float * float * float)
    : float * float * float := pt.

(** One camera at [(0, 0, 1)] with unit focal length, observing the pixels
    [(0, 0)] and [(1, 0)]; a second camera differs by its principal point. *)
Definition view0 : Vec11d.t := Vec11d.mk 0 0 0 0 0 1 1 0 0 0 0.
Definition view1 : Vec11d.t := Vec11d.mk 0 0 0 0 0 1 1 30 40 0 0.
Definition keypoints : list (list KeyPoint) :=
  [[ {| pt := Point2d.mk 0 0 |}; {| pt := Point2d.mk 1 0 |} ]].

(** Three points: two in front of the camera, one at depth zero. *)
Definition P501 : Point3d.t := Point3d.mk 5 0 1.
Definition P302 : Point3d.t := Point3d.mk 3 0 2.
Definition P500 : Point3d.t := Point3d.mk 5 0 0.


(** One call of the marker, on the first observation and with the default
    threshold. *)
Definition round : MarkCall :=
  {| call_xs := keypoints; call_views := [view0];
     call_visibility := [(0, 0)]; call_reproj_error2 := 4 |}.

End ZeroRotation.

(** ** Scenarios of the outlier marker *)

(** The point [X] with its third coordinate replaced. *)
Definition with_z (X : Point3d.t) (z : float) : Point3d.t :=
  Point3d.mk (Point3d.x X) (Point3d.y X) z.

Section Scenarios.
Variable Matx33d : Type.
Variable Rodrigues : float * float * float -> Matx33d.
Variable Matx33d_mul : Matx33d -> Point3d.t -> Point3d.t.

(** The squared reprojection error of the point [X] in the observation of
    the entry [visible] exceeds [T]. *)
Definition exceeds (xs : list (list KeyPoint)) (views : list Vec11d.t)
    (T : float) (X : Point3d.t) (visible : Z * Z) : Prop :=
  exists view x,
    observation xs views visible = Some (view, x) /\
    (T <? SFM.reproj_dist2 Matx33d Rodrigues Matx33d_mul view x X)%float = true.

(** The outlier-threshold property of the spec for the point stored at
    index [p]: a first call negates its third coordinate, which makes the
    point invalid, and returns 1; a second call on the same data returns 0
    and changes nothing. *)
Definition marked_once (Xs : list Point3d.t) (xs : list (list KeyPoint))
    (views : list Vec11d.t) (visibility : SFM.VisibilityGraph) (T : float)
    (p : nat) (X : Point3d.t) : Prop :=
  let Xs1 := <[p := Point3d.negate_z X]> Xs in
  SFM.markNoisyPoints Matx33d Rodrigues Matx33d_mul Xs xs views visibility T
    = Some (1, Xs1) /\
  invalid (Point3d.negate_z X) = true /\
  SFM.markNoisyPoints Matx33d Rodrigues Matx33d_mul Xs1 xs views visibility T
    = Some (0, Xs1).

End Scenarios.

(** ** The marker as a map over the points

    Definitions used to state what a whole call of the marker computes. *)

(** The third coordinate is negative or positive: neither a zero nor NaN. *)
Definition signed_z (X : Point3d.t) : Prop :=
  invalid X = true \/ (0 <? Point3d.z X)%float = true.

(** The marker as a map over the point vector: the points [m] selects, by
    index and value, are negated and counted. *)
Fixpoint mark_from (m : nat -> Point3d.t -> bool) (j : nat)
    (Xs : list Point3d.t) : list Point3d.t * Z :=
  match Xs with
  | [] => ([], 0)
  | X :: Xs' =>
      let r := mark_from m (S j) Xs' in
      if m j X then (Point3d.negate_z X :: r.1, r.2 + 1) else (X :: r.1, r.2)
  end.

(** The number of points that are not invalid in [Xs] and invalid at the
    same index in [Xs']. *)
Fixpoint flipped (Xs Xs' : list Point3d.t) : Z :=
  match Xs, Xs' with
  | X :: l, X' :: l' =>
      (if negb (invalid X) && invalid X' then 1 else 0) + flipped l l'
  | _, _ => 0
  end.

Section Outliers.
Variable Matx33d : Type.
Variable Rodrigues : float * float * float -> Matx33d.
Variable Matx33d_mul : Matx33d -> Point3d.t -> Point3d.t.

(** The test of the marker on one entry: the entry has an observation and
    the squared error of [X] in it exceeds [T]. *)
Definition exceedsb (xs : list (list KeyPoint)) (views : list Vec11d.t)
    (T : float) (X : Point3d.t) (visible : Z * Z) : bool :=
  match observation xs views visible with
  | Some (view, x) =>
      (T <? SFM.reproj_dist2 Matx33d Rodrigues Matx33d_mul view x X)%float
  | None => false
  end.

(** The point [X] stored at index [j] is an outlier of the call: it is not
    invalid and its squared error exceeds [T] in one of its entries. *)
Definition is_outlier (xs : list (list KeyPoint)) (views : list Vec11d.t)
    (T : float) (visibility : SFM.VisibilityGraph) (j : nat) (X : Point3d.t)
    : bool :=
  negb (invalid X)
  && existsb (fun e => bool_decide (Z.to_nat e.2 = j)
                       && exceedsb xs views T X e) visibility.

End Outliers.

(** * Properties *)

(** ** 32-bit arithmetic of the key *)

Module KeyFacts.
Import Key.

Lemma genKey_is_uint i p : is_uint (genKey i p).
Proof.
  unfold is_uint, genKey, add32, uint_max. apply Z.mod_pos_bound. lia.
Qed.

Lemma genKey_arith i p :
  0 <= i -> genKey i p = (i * 2 ^ 16 + p) mod 2 ^ 32.
Proof.
  intros Hi. unfold genKey, add32, shl32, uint_max.
  rewrite Z.shiftl_mul_pow2 by lia.
  rewrite Zplus_mod_idemp_l. reflexivity.
Qed.

Lemma getPtIdx_mod key : getPtIdx key = key mod 2 ^ 16.
Proof.
  unfold getPtIdx. change 65535 with (Z.ones 16).
  rewrite Z.land_ones by lia. reflexivity.
Qed.

Lemma getImIdx_mod key : getImIdx key = (key / 2 ^ 16) mod 2 ^ 16.
Proof.
  unfold getImIdx. change 65535 with (Z.ones 16).
  rewrite Z.land_ones by lia. rewrite Z.shiftr_div_pow2 by lia. reflexivity.
Qed.

Lemma getImIdx_is_16bit key : 0 <= getImIdx key < 2 ^ 16.
Proof. rewrite getImIdx_mod. apply Z.mod_pos_bound. lia. Qed.

Lemma getPtIdx_is_16bit key : 0 <= getPtIdx key < 2 ^ 16.
Proof. rewrite getPtIdx_mod. apply Z.mod_pos_bound. lia. Qed.

(** The low field of a key is the keypoint index modulo [2^16]. *)
Lemma getPtIdx_genKey i p :
  0 <= i -> getPtIdx (genKey i p) = p mod 2 ^ 16.
Proof.
  intros Hi. rewrite getPtIdx_mod, genKey_arith by assumption.
  change (2 ^ 32) with (2 ^ 16 * 2 ^ 16).
  rewrite Z.rem_mul_r by lia.
  rewrite (Z.mul_comm (2 ^ 16) (_ mod 2 ^ 16)), Z.mod_add by lia.
  rewrite Z.mod_mod by lia.
  rewrite Z.add_comm, Z.mod_add by lia. reflexivity.
Qed.

(** The high field receives the image index plus the carry of the keypoint
    index. *)
Lemma getImIdx_genKey i p :
  0 <= i -> 0 <= p ->
  getImIdx (genKey i p) = (i + p / 2 ^ 16) mod 2 ^ 16.
Proof.
  intros Hi Hp. rewrite getImIdx_mod, genKey_arith by assumption.
  change (2 ^ 32) with (2 ^ 16 * 2 ^ 16).
  set (x := i * 2 ^ 16 + p).
  rewrite Z.rem_mul_r by lia.
  rewrite (Z.mul_comm (2 ^ 16) ((x / 2 ^ 16) mod 2 ^ 16)), Z.div_add by lia.
  rewrite (Z.div_small (x mod 2 ^ 16)) by (apply Z.mod_pos_bound; lia).
  rewrite Z.add_0_l, Z.mod_mod by lia.
  unfold x. rewrite Z.div_add_l by lia. reflexivity.
Qed.

End KeyFacts.

(** ** Facts about [double] used by the marker *)

Module DoubleFacts.
Import Double.

Lemma digits2_pos_shift52 m :
  digits2_pos (4503599627370496 * m) = (digits2_pos m + 52)%positive.
Proof.
  lazy beta iota delta [Pos.mul]. lazy beta iota delta [digits2_pos].
  fold digits2_pos. lia.
Qed.

Lemma shr_52 m :
  SpecFloat.iter_pos shr_1 52
    {| shr_m := Z.pos (4503599627370496 * m); shr_r := false; shr_s := false |}
  = {| shr_m := Z.pos m; shr_r := false; shr_s := false |}.
Proof. vm_compute. reflexivity. Qed.

(** Multiplying a valid binary64 value by [-1.0] is exact: the product
    mantissa [m * 2^52] is shifted back by 52 bits with nothing lost. *)
Lemma SFmul_minus_one x :
  valid_binary x = true ->
  SF64mul x (S754_finite true 4503599627370496 (-52)) = SFopp x.
Proof.
  destruct x as [s|s| |s m e]; intros Hv; cbn [SF64mul SFmul SFopp].
  - destruct s; reflexivity.
  - destruct s; reflexivity.
  - reflexivity.
  - cbn [valid_binary] in Hv. unfold bounded, canonical_mantissa in Hv.
    apply andb_true_iff in Hv as [Hc Hb]. zfold.
    apply Z.eqb_eq in Hc.
    rewrite Pos.mul_comm.
    unfold binary_round_aux, shr_fexp. zfold.
    cbn [Zdigits2]. rewrite digits2_pos_shift52.
    replace (Z.pos (digits2_pos m + 52) + (e + -52))
      with (Z.pos (digits2_pos m) + e) by lia.
    rewrite Hc.
    replace (e - (e + -52)) with 52 by lia.
    cbn [shr_record_of_loc shr]. rewrite shr_52.
    cbn [shr_m loc_of_shr_record round_nearest_even Zdigits2].
    replace (e + -52 + 52) with e by lia.
    rewrite Hc, Z.sub_diag. cbn [shr shr_record_of_loc shr_m].
    rewrite Hb. destruct s; reflexivity.
Qed.

(** [z * -1] is the sign flip of [z], for every double. *)
Lemma mul_minus_one z : (z * -1)%float = (- z)%float.
Proof.
  apply Prim2SF_inj. rewrite FloatAxioms.mul_spec, FloatAxioms.opp_spec.
  apply SFmul_minus_one, Prim2SF_valid.
Qed.

Lemma opp_involutive z : (- - z)%float = z.
Proof.
  apply Prim2SF_inj. rewrite !FloatAxioms.opp_spec.
  destruct (Prim2SF z) as [s|s| |s m e]; cbn;
    rewrite ?negb_involutive; reflexivity.
Qed.

Lemma abs_opp z : abs (- z) = abs z.
Proof.
  apply Prim2SF_inj. rewrite !FloatAxioms.abs_spec, FloatAxioms.opp_spec.
  destruct (Prim2SF z); reflexivity.
Qed.

Lemma zero_cases z : is_zero z = true -> z = 0%float \/ z = (-0)%float.
Proof.
  unfold is_zero. rewrite FloatAxioms.eqb_spec. intros H.
  change (Prim2SF 0) with (S754_zero false) in H.
  destruct (Prim2SF z) as [s|s| |s m e] eqn:E; cbn in H;
    try discriminate; try (destruct s; discriminate).
  destruct s; [right|left]; apply Prim2SF_inj; rewrite E; reflexivity.
Qed.

Lemma opp_negative_of_positive z :
  (0 <? z)%float = true -> (- z <? 0)%float = true.
Proof.
  rewrite !FloatAxioms.ltb_spec, FloatAxioms.opp_spec.
  change (Prim2SF 0) with (S754_zero false).
  destruct (Prim2SF z) as [s|s| |s m e]; cbn; try discriminate;
    destruct s; cbn; congruence.
Qed.

(** A double that is neither negative nor a zero is positive or NaN. *)
Lemma sign_cases z :
  (z <? 0)%float = false -> is_zero z = false ->
  (0 <? z)%float = true \/ z = nan.
Proof.
  unfold is_zero. rewrite !FloatAxioms.ltb_spec, FloatAxioms.eqb_spec.
  change (Prim2SF 0) with (S754_zero false).
  destruct (Prim2SF z) as [s|s| |s m e] eqn:E; cbn;
    try (destruct s; cbn; intros; try discriminate; auto).
  intros _ _. right. apply Prim2SF_inj. rewrite E. reflexivity.
Qed.

Lemma is_zero_opp z : is_zero (- z) = is_zero z.
Proof.
  unfold is_zero. rewrite !FloatAxioms.eqb_spec, FloatAxioms.opp_spec.
  destruct (Prim2SF z) as [s|s| |s m e]; try reflexivity; destruct s; reflexivity.
Qed.

Lemma zero_not_negative z : is_zero z = true -> (z <? 0)%float = false.
Proof.
  intros [->| ->]%zero_cases; reflexivity.
Qed.

Lemma positive_not_negative z : (0 <? z)%float = true -> (z <? 0)%float = false.
Proof.
  rewrite !FloatAxioms.ltb_spec.
  change (Prim2SF 0) with (S754_zero false).
  destruct (Prim2SF z) as [s|s| |s m e]; cbn; try discriminate;
    destruct s; cbn; congruence.
Qed.

Lemma positive_not_le_zero t : (0 <? t)%float = true -> (t <=? 0)%float = false.
Proof.
  rewrite FloatAxioms.ltb_spec, FloatAxioms.leb_spec.
  change (Prim2SF 0) with (S754_zero false).
  destruct (Prim2SF t) as [s|s| |s m e]; cbn; try discriminate;
    destruct s; cbn; congruence.
Qed.

(** [z - z] is [+0] for finite [z] (and NaN for the infinities and NaN). *)
Lemma sub_diag z : is_finite z = true -> (z - z)%float = 0%float.
Proof.
  unfold is_finite. intros H. apply Prim2SF_inj. rewrite FloatAxioms.sub_spec.
  change (Prim2SF 0) with (S754_zero false).
  destruct (Prim2SF z) as [s|s| |s m e]; try discriminate.
  - destruct s; reflexivity.
  - unfold SF64sub, SFsub. zfold. rewrite Z.min_id.
    unfold shl_align. zfold. rewrite Z.sub_diag. cbn [fst].
    reflexivity.
Qed.

End DoubleFacts.

(** ** The composite key *)

(** C1. Round trip of the composite key: for an image index [i] and a
    keypoint index [p] that each fit in 16 bits, [getImIdx (genKey i p)] is
    [i] and [getPtIdx (genKey i p)] is [p]. *)
Theorem genKey_round_trip (i p : Z) :
  0 <= i < 2 ^ 16 -> 0 <= p < 2 ^ 16 ->
  Key.getImIdx (Key.genKey i p) = i /\ Key.getPtIdx (Key.genKey i p) = p.
Proof.
  intros Hi Hp. split.
  - rewrite KeyFacts.getImIdx_genKey by lia.
    rewrite (Z.div_small p) by lia. rewrite Z.add_0_r. apply Z.mod_small. lia.
  - rewrite KeyFacts.getPtIdx_genKey by lia. apply Z.mod_small. lia.
Qed.

Lemma genKey_round_trip_witness :
  Key.getImIdx (Key.genKey 3 70) = 3 /\ Key.getPtIdx (Key.genKey 3 70) = 70.
Proof. apply (genKey_round_trip 3 70); lia. Defined.

(** C9. [genKey] adds its fields: [genKey i p = (i * 2^16 + p) mod 2^32] for
    all [uint] arguments. The low field decodes to [p mod 2^16], the high
    field to [(i + p / 2^16) mod 2^16], so the excess of a keypoint index
    of 17 bits or more carries into the image field; the distinct pairs
    [(i, 2^16)] and [(i + 1, 0)] get the same key. *)
Theorem genKey_carry (i p : Z) :
  Key.is_uint i -> Key.is_uint p ->
  Key.genKey i p = (i * 2 ^ 16 + p) mod 2 ^ 32 /\
  Key.getPtIdx (Key.genKey i p) = p mod 2 ^ 16 /\
  Key.getImIdx (Key.genKey i p) = (i + p / 2 ^ 16) mod 2 ^ 16 /\
  Key.genKey i (2 ^ 16) = Key.genKey (Key.add32 i 1) 0 /\
  (i, 2 ^ 16) <> (Key.add32 i 1, 0).
Proof.
  unfold Key.is_uint, Key.uint_max. intros Hi Hp.
  split; [apply KeyFacts.genKey_arith; lia|].
  split; [apply KeyFacts.getPtIdx_genKey; lia|].
  split; [apply KeyFacts.getImIdx_genKey; lia|].
  split; [|intros [= _ ?]; lia].
  assert (Hs : 0 <= Key.add32 i 1) by (apply Z.mod_pos_bound; reflexivity).
  rewrite !KeyFacts.genKey_arith by lia.
  unfold Key.add32, Key.uint_max.
  rewrite Z.add_0_r, Z.mul_mod_idemp_l by lia.
  f_equal. ring.
Qed.

Lemma genKey_carry_witness :
  Key.genKey 2 65541 = (2 * 2 ^ 16 + 65541) mod 2 ^ 32 /\
  Key.getPtIdx (Key.genKey 2 65541) = 65541 mod 2 ^ 16 /\
  Key.getImIdx (Key.genKey 2 65541) = (2 + 65541 / 2 ^ 16) mod 2 ^ 16 /\
  Key.genKey 2 (2 ^ 16) = Key.genKey (Key.add32 2 1) 0 /\
  (2, 2 ^ 16) <> (Key.add32 2 1, 0).
Proof. apply (genKey_carry 2 65541); unfold Key.is_uint, Key.uint_max; lia. Defined.

(** ** Loops *)

Section ForEach.
Context {S E : Type}.
Implicit Types (body : S -> E -> option S) (l : list E) (s : S).

Lemma for_each_cons2 body e1 e2 l s :
  for_each body (e1 :: e2 :: l) s
  = s2 ← (s1 ← body s e1; body s1 e2); for_each body l s2.
Proof. simpl. destruct (body s e1); reflexivity. Qed.

(** A property kept by every iteration holds when the loop ends. *)
Lemma for_each_invariant (P : S -> Prop) body l s s' :
  (forall s0 e s1, P s0 -> e ∈ l -> body s0 e = Some s1 -> P s1) ->
  P s -> for_each body l s = Some s' -> P s'.
Proof.
  revert s. induction l as [|e l IH]; intros s Hstep Hs Hrun; simpl in Hrun.
  - congruence.
  - destruct (body s e) as [s1|] eqn:E1; simpl in Hrun; [|discriminate].
    eapply IH; [| |exact Hrun].
    + intros s0 e0 s2 H0 Hin. eapply Hstep; eauto. by right.
    + eapply Hstep; eauto. by left.
Qed.

(** When every iteration is defined under an invariant, so is the loop. *)
Lemma for_each_total (P : S -> Prop) body l s :
  (forall s0 e, P s0 -> e ∈ l -> exists s1, body s0 e = Some s1 /\ P s1) ->
  P s -> exists s', for_each body l s = Some s' /\ P s'.
Proof.
  revert s. induction l as [|e l IH]; intros s Hstep Hs; simpl.
  - eauto.
  - destruct (Hstep s e Hs) as (s1 & E1 & H1); [by left|].
    rewrite E1. simpl. apply IH; [|exact H1].
    intros s0 e0 H0 Hin. apply Hstep; [exact H0 | by right].
Qed.

(** Iterations that commute under an invariant make the loop independent
    of the order of the entries. *)
Lemma for_each_permutation (P : S -> Prop) body l1 l2 s :
  (forall s0 e, P s0 -> e ∈ l1 -> exists s1, body s0 e = Some s1 /\ P s1) ->
  (forall s0 e1 e2, P s0 -> e1 ∈ l1 -> e2 ∈ l1 ->
     (s1 ← body s0 e1; body s1 e2) = (s1 ← body s0 e2; body s1 e1)) ->
  l1 ≡ₚ l2 -> P s ->
  for_each body l1 s = for_each body l2 s.
Proof.
  intros Hstep Hcomm Hperm. revert s Hstep Hcomm.
  induction Hperm as [|e l1 l2 Hp IH|e1 e2 l|l1 l2 l3 Hp12 IH12 Hp23 IH23];
    intros s Hstep Hcomm Hs.
  - reflexivity.
  - simpl. destruct (Hstep s e Hs) as (s1 & E1 & H1); [by left|].
    rewrite E1. simpl. apply IH; [| |exact H1].
    + intros s0 e0 H0 Hin. apply Hstep; [exact H0 | by right].
    + intros s0 a b H0 Ha Hb. apply Hcomm; [exact H0 | by right | by right].
  - rewrite !for_each_cons2. f_equal.
    apply Hcomm; [exact Hs | by left | right; by left].
  - rewrite IH12 by assumption. apply IH23; [| |exact Hs].
    + intros s0 e H0 Hin. apply Hstep; [exact H0|]. by rewrite Hp12.
    + intros s0 a b H0 Ha Hb. apply Hcomm; [exact H0 | by rewrite Hp12 | by rewrite Hp12].
Qed.

End ForEach.

(** Loops that append one element per entry. *)

Section Collect.
Context {E B : Type}.
Variable g : E -> option B.
Variable body : list B -> E -> option (list B).
Hypothesis body_appends : forall p e, body p e = b ← g e; Some (p ++ [b]).

Lemma for_each_collect l p p' :
  for_each body l p = Some p' <->
  exists bs, Forall2 (fun e b => g e = Some b) l bs /\ p' = p ++ bs.
Proof.
  revert p. induction l as [|e l IH]; intros p; cbn [for_each].
  - split.
    + intros [= <-]. exists []. split; [constructor | by rewrite app_nil_r].
    + intros (bs & HF & ->). apply Forall2_nil_inv_l in HF as ->.
      by rewrite app_nil_r.
  - rewrite body_appends. split.
    + destruct (g e) as [b|] eqn:Eg; cbn [mbind option_bind]; [|discriminate].
      intros (bs & HF & ->)%IH. exists (b :: bs).
      split; [by constructor | by rewrite <- app_assoc].
    + intros (bs & HF & ->).
      apply Forall2_cons_inv_l in HF as (b & bs' & Eg & HF & ->).
      rewrite Eg. cbn [mbind option_bind].
      apply IH. exists bs'. split; [exact HF | by rewrite <- app_assoc].
Qed.

Lemma Forall2_permutation_l {X Y} (P : X -> Y -> Prop) (l1 l2 : list X) k1 :
  l1 ≡ₚ l2 -> Forall2 P l1 k1 -> exists k2, Forall2 P l2 k2 /\ k1 ≡ₚ k2.
Proof.
  intros Hp. revert k1.
  induction Hp as [|a l1 l2 Hp IH|a b l|l1 l2 l3 Hp12 IH12 Hp23 IH23]; intros k1 HF.
  - apply Forall2_nil_inv_l in HF as ->. exists []. split; constructor.
  - apply Forall2_cons_inv_l in HF as (y & k & Hy & HF & ->).
    destruct (IH _ HF) as (k2 & HF2 & HP2).
    exists (y :: k2). split; [by constructor | by constructor].
  - apply Forall2_cons_inv_l in HF as (y & k & Hy & HF & ->).
    apply Forall2_cons_inv_l in HF as (y' & k' & Hy' & HF & ->).
    exists (y' :: y :: k'). split; [by repeat constructor | apply perm_swap].
  - destruct (IH12 _ HF) as (k2 & HF2 & HP2).
    destruct (IH23 _ HF2) as (k3 & HF3 & HP3).
    exists k3. split; [exact HF3 | by etrans].
Qed.

(** The elements appended are the same, up to their order, for two
    enumerations of the same entries. *)
Lemma for_each_collect_permutation l1 l2 p p1 :
  l1 ≡ₚ l2 -> for_each body l1 p = Some p1 ->
  exists bs1 bs2,
    p1 = p ++ bs1 /\ for_each body l2 p = Some (p ++ bs2) /\ bs1 ≡ₚ bs2.
Proof.
  intros Hp (bs1 & HF & ->)%for_each_collect.
  destruct (Forall2_permutation_l _ _ _ _ Hp HF) as (bs2 & HF2 & HP2).
  exists bs1, bs2. split; [reflexivity|]. split; [|exact HP2].
  apply for_each_collect. eauto.
Qed.

End Collect.

(** ** The outlier marker *)

Section MarkerTheory.
Variable Matx33d : Type.
Variable Rodrigues : float * float * float -> Matx33d.
Variable Matx33d_mul : Matx33d -> Point3d.t -> Point3d.t.

Local Abbreviation body := (SFM.markNoisyPoints_body Matx33d Rodrigues Matx33d_mul).
Local Abbreviation dist2 := (SFM.reproj_dist2 Matx33d Rodrigues Matx33d_mul).
Local Abbreviation mark := (SFM.markNoisyPoints Matx33d Rodrigues Matx33d_mul).

Implicit Types (Xs : list Point3d.t) (xs : list (list KeyPoint))
  (views : list Vec11d.t) (visible : Z * Z) (X : Point3d.t) (n : Z).

(** The loop body, with the three subscripts of the observation grouped. *)
Lemma body_unfold xs views T Xs n visible :
  body xs views T (Xs, n) visible =
  X ← Xs !! Z.to_nat visible.2;
  if invalid X then Some (Xs, n)
  else
    vx ← observation xs views visible;
    if (T <? dist2 vx.1 vx.2 X)%float
    then Some (<[Z.to_nat visible.2 := Point3d.negate_z X]> Xs, n + 1)
    else Some (Xs, n).
Proof.
  unfold SFM.markNoisyPoints_body, observation, invalid.
  destruct (Xs !! Z.to_nat visible.2) as [X|]; simpl; [|reflexivity].
  destruct (Point3d.z X <? 0)%float; [reflexivity|].
  destruct (xs !! _) as [kps|]; simpl; [|reflexivity].
  destruct (kps !! _) as [kp|]; simpl; [|reflexivity].
  destruct (views !! _) as [view|]; reflexivity.
Qed.

(** An iteration either leaves the state alone or marks the point of the
    entry, which was not invalid and whose squared error exceeds [T]. *)
Lemma body_cases xs views T Xs n visible Xs' n' :
  body xs views T (Xs, n) visible = Some (Xs', n') ->
  (Xs' = Xs /\ n' = n) \/
  (exists X view x,
     Xs !! Z.to_nat visible.2 = Some X /\ invalid X = false /\
     observation xs views visible = Some (view, x) /\
     (T <? dist2 view x X)%float = true /\
     Xs' = <[Z.to_nat visible.2 := Point3d.negate_z X]> Xs /\ n' = n + 1).
Proof.
  rewrite body_unfold.
  destruct (Xs !! Z.to_nat visible.2) as [X|] eqn:EX; simpl; [|discriminate].
  destruct (invalid X) eqn:EI; [intros [= <- <-]; by left|].
  destruct (observation xs views visible) as [[view x]|] eqn:EO; simpl; [|discriminate].
  destruct (T <? dist2 view x X)%float eqn:ED; intros [= <- <-]; [right|by left].
  exists X, view, x. done.
Qed.

Lemma negate_z_involutive X : Point3d.negate_z (Point3d.negate_z X) = X.
Proof.
  destruct X as [a b c]. unfold Point3d.negate_z. simpl.
  by rewrite !DoubleFacts.mul_minus_one, DoubleFacts.opp_involutive.
Qed.

Lemma mark_rel_refl X : mark_rel X X.
Proof. by left. Qed.

Lemma mark_rel_trans X1 X2 X3 : mark_rel X1 X2 -> mark_rel X2 X3 -> mark_rel X1 X3.
Proof.
  intros [->|[H1 ->]] [->|[H2 ->]]; unfold mark_rel; auto.
  left. apply negate_z_involutive.
Qed.

Lemma marks_refl Xs : Forall2 mark_rel Xs Xs.
Proof. apply Forall_Forall2_diag, Forall_forall. intros; apply mark_rel_refl. Qed.

Lemma marks_trans Xs1 Xs2 Xs3 :
  Forall2 mark_rel Xs1 Xs2 -> Forall2 mark_rel Xs2 Xs3 -> Forall2 mark_rel Xs1 Xs3.
Proof. apply Forall2_trans, mark_rel_trans. Qed.

Lemma body_marks xs views T Xs n visible Xs' n' :
  body xs views T (Xs, n) visible = Some (Xs', n') ->
  Forall2 mark_rel Xs Xs' /\ n <= n' <= n + 1.
Proof.
  intros [[-> ->]|(X & view & x & EX & EI & _ & _ & -> & ->)]%body_cases.
  - split; [apply marks_refl | lia].
  - split; [|lia].
    rewrite <- (list_insert_id Xs _ _ EX) at 1.
    apply Forall2_insert; [apply marks_refl | by right].
Qed.

(** The loop only marks, and counts at most one mark per entry. *)
Lemma loop_marks xs views T visibility Xs n Xs' n' :
  for_each (body xs views T) visibility (Xs, n) = Some (Xs', n') ->
  Forall2 mark_rel Xs Xs' /\ n <= n' <= n + Z.of_nat (length visibility).
Proof.
  revert Xs n. induction visibility as [|e l IH]; intros Xs n; cbn [for_each].
  - intros [= <- <-]. split; [apply marks_refl | simpl; lia].
  - destruct (body xs views T (Xs, n) e) as [[Xs1 n1]|] eqn:E1;
      cbn [mbind option_bind]; [|discriminate].
    intros Hl. apply body_marks in E1 as [R1 B1]. apply IH in Hl as [R2 B2].
    split; [eapply marks_trans; eassumption | cbn [length]; lia].
Qed.

Lemma body_length xs views T Xs n visible Xs' n' :
  body xs views T (Xs, n) visible = Some (Xs', n') -> length Xs' = length Xs.
Proof.
  intros [H _]%body_marks. symmetry. eapply Forall2_length, H.
Qed.

Lemma in_range_lookup n_points xs views visible :
  entry_in_range n_points xs views visible = true ->
  (Z.to_nat visible.2 < n_points)%nat /\
  exists view x, observation xs views visible = Some (view, x).
Proof.
  unfold entry_in_range. intros [H1 H2]%andb_true_iff.
  apply bool_decide_eq_true in H1, H2. split; [exact H1|].
  destruct H2 as [[view x] H2]. eauto.
Qed.

(** With its subscripts in range an iteration is defined. *)
Lemma body_total xs views T Xs n visible :
  entry_in_range (length Xs) xs views visible = true ->
  exists Xs' n', body xs views T (Xs, n) visible = Some (Xs', n').
Proof.
  intros [Hlt (view & x & EO)]%in_range_lookup.
  apply lookup_lt_is_Some in Hlt as [X EX].
  rewrite body_unfold, EX, EO. simpl.
  destruct (invalid X); [eauto|].
  destruct (T <? dist2 view x X)%float; eauto.
Qed.

Lemma well_formed_elem Xs xs views visibility visible :
  well_formed Xs xs views visibility = true -> visible ∈ visibility ->
  entry_in_range (length Xs) xs views visible = true.
Proof.
  unfold well_formed. rewrite forallb_forall. intros H Hin.
  apply H. by apply list_elem_of_In.
Qed.

(** On well-formed inputs the loop of the marker runs to its end. *)
Lemma loop_total xs views T visibility Xs n :
  well_formed Xs xs views visibility = true ->
  exists Xs' n', for_each (body xs views T) visibility (Xs, n) = Some (Xs', n').
Proof.
  intros Hwf.
  destruct (for_each_total (fun st => length st.1 = length Xs)
              (body xs views T) visibility (Xs, n)) as ([Xs' n'] & E & _).
  - intros [Xs0 n0] e Hlen Hin. simpl in Hlen.
    destruct (body_total xs views T Xs0 n0 e) as (Xs1 & n1 & E1).
    { rewrite Hlen. eapply well_formed_elem; eassumption. }
    exists (Xs1, n1). split; [exact E1|]. simpl.
    apply body_length in E1. congruence.
  - reflexivity.
  - eauto.
Qed.

Lemma mark_disabled Xs xs views visibility T :
  (T <=? 0)%float = true -> mark Xs xs views visibility T = Some (-1, Xs).
Proof. unfold SFM.markNoisyPoints. by intros ->. Qed.

Lemma mark_enabled Xs xs views visibility T :
  (T <=? 0)%float = false ->
  mark Xs xs views visibility T =
  st ← for_each (body xs views T) visibility (Xs, 0); Some (st.2, st.1).
Proof.
  unfold SFM.markNoisyPoints. intros ->.
  destruct (for_each _ _ _) as [[Xs' n']|]; reflexivity.
Qed.

(** What a call that returns has done: a count within the number of
    entries (or the sentinel), and marks only. *)
Lemma mark_marks Xs xs views visibility T r Xs' :
  mark Xs xs views visibility T = Some (r, Xs') ->
  Forall2 mark_rel Xs Xs' /\ -1 <= r <= Z.of_nat (length visibility).
Proof.
  destruct (T <=? 0)%float eqn:ET.
  - rewrite mark_disabled by exact ET. intros [= <- <-].
    split; [apply marks_refl | lia].
  - rewrite mark_enabled by exact ET.
    destruct (for_each _ _ _) as [[Xs1 n1]|] eqn:E; simpl; [|discriminate].
    intros [= <- <-]. apply loop_marks in E as [R B]. split; [exact R | lia].
Qed.

(** *** Independence of the enumeration order *)

Lemma negate_z_invalid X :
  (0 <? Point3d.z X)%float = true -> invalid (Point3d.negate_z X) = true.
Proof.
  intros H. unfold invalid, Point3d.negate_z. simpl.
  rewrite DoubleFacts.mul_minus_one. by apply DoubleFacts.opp_negative_of_positive.
Qed.

Lemma negate_z_nonzero X : nonzero_z X -> nonzero_z (Point3d.negate_z X).
Proof.
  unfold nonzero_z, Point3d.negate_z. simpl.
  by rewrite DoubleFacts.mul_minus_one, DoubleFacts.is_zero_opp.
Qed.

(** A point that is not invalid and whose third coordinate is not a zero
    becomes invalid when negated, unless the coordinate is NaN, which
    negation leaves as it is. *)
Lemma negate_z_cases X :
  invalid X = false -> nonzero_z X ->
  invalid (Point3d.negate_z X) = true \/ Point3d.negate_z X = X.
Proof.
  intros HI HZ. destruct (DoubleFacts.sign_cases _ HI HZ) as [Hpos|Hnan].
  - left. by apply negate_z_invalid.
  - right. destruct X as [a b c]. simpl in Hnan. subst c. reflexivity.
Qed.

Lemma body_nonzero xs views T Xs n visible Xs' n' :
  Forall nonzero_z Xs ->
  body xs views T (Xs, n) visible = Some (Xs', n') -> Forall nonzero_z Xs'.
Proof.
  intros HF [[-> ->]|(X & view & x & EX & _ & _ & _ & -> & ->)]%body_cases;
    [exact HF|].
  apply Forall_insert; [exact HF|].
  apply negate_z_nonzero. eapply Forall_lookup_1; eassumption.
Qed.

(** Two iterations commute when no third coordinate is a zero. *)
Lemma body_comm xs views T Xs n e1 e2 :
  Forall nonzero_z Xs ->
  entry_in_range (length Xs) xs views e1 = true ->
  entry_in_range (length Xs) xs views e2 = true ->
  (s1 ← body xs views T (Xs, n) e1; body xs views T s1 e2)
  = (s1 ← body xs views T (Xs, n) e2; body xs views T s1 e1).
Proof.
  intros HZ [Hlt1 (v1 & x1 & EO1)]%in_range_lookup
            [Hlt2 (v2 & x2 & EO2)]%in_range_lookup.
  remember (Z.to_nat e1.2) as p1 eqn:Hp1.
  remember (Z.to_nat e2.2) as p2 eqn:Hp2.
  destruct (lookup_lt_is_Some_2 _ _ Hlt1) as [X1 EX1].
  destruct (lookup_lt_is_Some_2 _ _ Hlt2) as [X2 EX2].
  assert (HZ1 : nonzero_z X1) by (eapply Forall_lookup_1; eassumption).
  assert (HZ2 : nonzero_z X2) by (eapply Forall_lookup_1; eassumption).
  rewrite (body_unfold xs views T Xs n e1), (body_unfold xs views T Xs n e2).
  rewrite <- Hp1, <- Hp2, EX1, EX2, EO1, EO2. cbn [mbind option_bind fst snd].
  destruct (decide (p1 = p2)) as [<-|Hne].
  - (* both entries see the same point *)
    assert (X2 = X1) as -> by congruence.
    destruct (invalid X1) eqn:EI.
    { cbn [mbind option_bind]. rewrite !body_unfold, <- Hp1, <- Hp2, EX1.
      cbn [mbind option_bind]. by rewrite EI. }
    destruct (negate_z_cases X1 EI HZ1) as [Hinv|Hsame].
    + destruct (T <? dist2 v1 x1 X1)%float eqn:B1;
      destruct (T <? dist2 v2 x2 X1)%float eqn:B2;
        cbn [mbind option_bind]; rewrite !body_unfold, <- ?Hp1, <- ?Hp2;
        rewrite ?list_lookup_insert_eq by exact Hlt1;
        rewrite ?EX1; cbn [mbind option_bind];
        rewrite ?Hinv, ?EI, ?EO1, ?EO2; cbn [mbind option_bind fst snd];
        rewrite ?B1, ?B2; reflexivity.
    + rewrite Hsame, (list_insert_id _ _ _ EX1).
      destruct (T <? dist2 v1 x1 X1)%float eqn:B1;
      destruct (T <? dist2 v2 x2 X1)%float eqn:B2;
        cbn [mbind option_bind]; rewrite !body_unfold, <- ?Hp1, <- ?Hp2;
        rewrite ?EX1; cbn [mbind option_bind];
        rewrite ?EI, ?EO1, ?EO2; cbn [mbind option_bind fst snd];
        rewrite ?B1, ?B2, ?Hsame, ?(list_insert_id _ _ _ EX1); reflexivity.
  - (* the entries see different points *)
    destruct (invalid X1) eqn:EI1; destruct (invalid X2) eqn:EI2;
    destruct (T <? dist2 v1 x1 X1)%float eqn:B1;
    destruct (T <? dist2 v2 x2 X2)%float eqn:B2;
      cbn [mbind option_bind]; rewrite !body_unfold, <- ?Hp1, <- ?Hp2;
      rewrite ?list_lookup_insert_ne by congruence;
      rewrite ?EX1, ?EX2; cbn [mbind option_bind];
      rewrite ?EI1, ?EI2, ?EO1, ?EO2; cbn [mbind option_bind fst snd];
      rewrite ?B1, ?B2; try reflexivity.
    by rewrite list_insert_insert_ne.
Qed.

(** The result of a call does not depend on the enumeration order. *)
Lemma mark_permutation Xs xs views l1 l2 T :
  Forall nonzero_z Xs -> well_formed Xs xs views l1 = true -> l1 ≡ₚ l2 ->
  mark Xs xs views l1 T = mark Xs xs views l2 T.
Proof.
  intros HZ Hwf Hp. destruct (T <=? 0)%float eqn:ET.
  - by rewrite !mark_disabled.
  - rewrite !mark_enabled by exact ET. f_equal.
    apply (for_each_permutation
             (fun st => length st.1 = length Xs /\ Forall nonzero_z st.1));
      [| |exact Hp|by split].
    + intros [Xs0 n0] e [Hlen HZ0] Hin. simpl in Hlen, HZ0.
      destruct (body_total xs views T Xs0 n0 e) as (Xs1 & n1 & E1).
      { rewrite Hlen. eapply well_formed_elem; eassumption. }
      exists (Xs1, n1). split; [exact E1|]. simpl. split.
      * apply body_length in E1. congruence.
      * eapply body_nonzero; eassumption.
    + intros [Xs0 n0] e1 e2 [Hlen HZ0] Hin1 Hin2. simpl in Hlen, HZ0.
      apply body_comm; [exact HZ0| |]; rewrite Hlen;
        eapply well_formed_elem; eassumption.
Qed.

(** *** Validity is lost, never regained *)

Lemma calls_marks calls Xs Xs' :
  markNoisyPoints_calls Matx33d Rodrigues Matx33d_mul calls Xs = Some Xs' ->
  Forall2 mark_rel Xs Xs'.
Proof.
  unfold markNoisyPoints_calls. intros Hrun.
  apply (for_each_invariant (fun Xs0 => Forall2 mark_rel Xs Xs0) _ _ _ _)
    in Hrun; [exact Hrun| |apply marks_refl].
  intros Xs0 c Xs1 H0 _ Hc.
  destruct (mark Xs0 _ _ _ _) as [[r Xs2]|] eqn:E; [|discriminate].
  simpl in Hc. injection Hc as <-. apply mark_marks in E as [R _].
  eapply marks_trans; eassumption.
Qed.

(** C4. Per point the marker is a one-way state machine. An iteration on
    an entry whose point is invalid (negative third coordinate) is skipped:
    it reads neither the observation nor the camera and changes nothing.
    Over any sequence of calls an invalid point is left exactly as it is,
    and the validity flag of a point changes, if at all, from valid to
    invalid. *)
Theorem marker_one_way :
  (forall xs views T Xs n visible X,
     Xs !! Z.to_nat visible.2 = Some X -> invalid X = true ->
     body xs views T (Xs, n) visible = Some (Xs, n)) /\
  (forall calls Xs Xs' j X,
     markNoisyPoints_calls Matx33d Rodrigues Matx33d_mul calls Xs = Some Xs' ->
     Xs !! j = Some X ->
     exists X',
       Xs' !! j = Some X' /\
       (invalid X = true -> X' = X) /\
       (invalid X' <> invalid X -> invalid X = false /\ invalid X' = true)).
Proof.
  split.
  - intros xs views T Xs n visible X EX EI.
    rewrite body_unfold, EX. cbn [mbind option_bind]. by rewrite EI.
  - intros calls Xs Xs' j X HR%calls_marks EX.
    destruct (Forall2_lookup_l _ _ _ _ _ HR EX) as (X' & EX' & Hrel).
    exists X'. split; [exact EX'|].
    destruct Hrel as [->|[HI ->]].
    + split; [done|]. intros Hne. by destruct Hne.
    + split; [intros; congruence|].
      intros Hne. split; [exact HI|].
      destruct (invalid (Point3d.negate_z X)); [reflexivity | congruence].
Qed.

(** *** The magnitude of the third coordinate *)

Lemma negate_z_abs X :
  abs (Point3d.z (Point3d.negate_z X)) = abs (Point3d.z X).
Proof.
  unfold Point3d.negate_z. simpl. by rewrite DoubleFacts.mul_minus_one, DoubleFacts.abs_opp.
Qed.

(** C8. Marking changes the sign of the third coordinate only. After a call
    every stored point has its first two coordinates and the absolute value
    of its third coordinate unchanged; a point the call has changed was not
    invalid, holds [X.z * -1], and negating it again gives back the point
    as it was stored. *)
Theorem mark_preserves_magnitude Xs xs views visibility T r Xs' j X :
  mark Xs xs views visibility T = Some (r, Xs') ->
  Xs !! j = Some X ->
  exists X',
    Xs' !! j = Some X' /\
    Point3d.x X' = Point3d.x X /\ Point3d.y X' = Point3d.y X /\
    abs (Point3d.z X') = abs (Point3d.z X) /\
    (X' <> X ->
     invalid X = false /\
     Point3d.z X' = (Point3d.z X * -1)%float /\
     Point3d.negate_z X' = X).
Proof.
  intros [HR _]%mark_marks EX.
  destruct (Forall2_lookup_l _ _ _ _ _ HR EX) as (X' & EX' & Hrel).
  exists X'. split; [exact EX'|].
  destruct Hrel as [->|[HI ->]].
  - split; [reflexivity|]. split; [reflexivity|]. split; [reflexivity|].
    intros Hne. by destruct Hne.
  - split; [reflexivity|]. split; [reflexivity|].
    split; [apply negate_z_abs|]. intros _.
    split; [exact HI|]. split; [reflexivity | apply negate_z_involutive].
Qed.

(** *** One point and its observations *)

(** Entries of an invalid point are all skipped. *)
Lemma loop_skip xs views T l Xs n p X :
  Xs !! p = Some X -> invalid X = true ->
  Forall (fun e => Z.to_nat e.2 = p) l ->
  for_each (body xs views T) l (Xs, n) = Some (Xs, n).
Proof.
  intros EX EI. induction 1 as [|e l He _ IH]; cbn [for_each]; [reflexivity|].
  rewrite body_unfold, He, EX. cbn [mbind option_bind]. by rewrite EI.
Qed.

(** A valid point with a positive third coordinate is marked by the first
    of its entries whose error exceeds the threshold, and only by it. *)
Lemma loop_outlier xs views T l Xs n p X :
  Xs !! p = Some X -> (0 <? Point3d.z X)%float = true ->
  Forall (fun e => Z.to_nat e.2 = p /\ is_Some (observation xs views e)) l ->
  Exists (exceeds Matx33d Rodrigues Matx33d_mul xs views T X) l ->
  for_each (body xs views T) l (Xs, n)
  = Some (<[p := Point3d.negate_z X]> Xs, n + 1).
Proof.
  intros EX Hpos HF. induction HF as [|e l [He [[view x] EO]] HF IH];
    intros HE; [inv HE|].
  cbn [for_each]. rewrite body_unfold, He, EX. cbn [mbind option_bind].
  unfold invalid at 1. rewrite (DoubleFacts.positive_not_negative _ Hpos).
  rewrite EO. cbn [mbind option_bind fst snd].
  destruct (T <? dist2 view x X)%float eqn:ED.
  - cbn [mbind option_bind].
    apply (loop_skip _ _ _ _ _ _ p (Point3d.negate_z X)).
    + apply list_lookup_insert_eq. by eapply lookup_lt_Some.
    + by apply negate_z_invalid.
    + eapply Forall_impl; [exact HF|]. by intros ? [? _].
  - cbn [mbind option_bind]. apply IH.
    apply Exists_cons in HE as [(view' & x' & EO' & ED')|HE]; [|exact HE].
    congruence.
Qed.

(** C2, amended. A point with a strictly positive third coordinate, seen
    by the visibility entries of the call and with a squared reprojection
    error above [T > 0] in one of them, is marked once: the first call
    negates its third coordinate, which makes the point invalid, and
    returns 1; a second call on the same data returns 0. *)
Theorem mark_outlier_once Xs xs views visibility T p X :
  (0 <? T)%float = true ->
  Xs !! p = Some X -> (0 <? Point3d.z X)%float = true ->
  Forall (fun e => Z.to_nat e.2 = p /\ is_Some (observation xs views e))
         visibility ->
  Exists (exceeds Matx33d Rodrigues Matx33d_mul xs views T X) visibility ->
  marked_once Matx33d Rodrigues Matx33d_mul Xs xs views visibility T p X.
Proof.
  intros HT%DoubleFacts.positive_not_le_zero EX Hpos HF HE. unfold marked_once.
  rewrite !mark_enabled by exact HT.
  rewrite (loop_outlier _ _ _ _ _ _ _ _ EX Hpos HF HE).
  split; [reflexivity|]. split; [by apply negate_z_invalid|].
  rewrite (loop_skip _ _ _ _ _ _ p (Point3d.negate_z X)); [reflexivity| | |].
  - apply list_lookup_insert_eq. by eapply lookup_lt_Some.
  - by apply negate_z_invalid.
  - eapply Forall_impl; [exact HF|]. by intros ? [? _].
Qed.

(** *** A third coordinate that is zero *)

Lemma with_z_self X : with_z X (Point3d.z X) = X.
Proof. by destruct X. Qed.

Lemma negate_with_z X z : Point3d.negate_z (with_z X z) = with_z X (z * -1)%float.
Proof. reflexivity. Qed.

(** Every entry of a point whose third coordinate is a zero counts it
    again: the negation turns a zero into a zero, which is not negative. *)
Lemma loop_zero xs views T l p X :
  Forall (fun e => Z.to_nat e.2 = p /\
            forall z0, Double.is_zero z0 = true ->
                       exceeds Matx33d Rodrigues Matx33d_mul xs views T
                         (with_z X z0) e) l ->
  forall Xs n z0,
    Xs !! p = Some (with_z X z0) -> Double.is_zero z0 = true ->
    exists z1,
      Double.is_zero z1 = true /\
      for_each (body xs views T) l (Xs, n)
      = Some (<[p := with_z X z1]> Xs, n + Z.of_nat (length l)).
Proof.
  induction 1 as [|e l [He Hex] _ IH]; intros Xs n z0 EX Hz0.
  - exists z0. split; [exact Hz0|]. cbn [for_each length].
    by rewrite (list_insert_id _ _ _ EX), Z.add_0_r.
  - destruct (Hex z0 Hz0) as (view & x & EO & ED).
    cbn [for_each]. rewrite body_unfold, He, EX. cbn [mbind option_bind].
    unfold invalid at 1. cbn [with_z Point3d.z].
    rewrite (DoubleFacts.zero_not_negative _ Hz0).
    rewrite EO. cbn [mbind option_bind fst snd]. rewrite ED.
    cbn [mbind option_bind]. rewrite negate_with_z.
    assert (Hz1 : Double.is_zero (z0 * -1) = true)
      by (by rewrite DoubleFacts.mul_minus_one, DoubleFacts.is_zero_opp).
    destruct (IH (<[p := with_z X (z0 * -1)]> Xs) (n + 1) (z0 * -1)%float)
      as (z1 & Hz1' & E); [|exact Hz1|].
    { apply list_lookup_insert_eq. by eapply lookup_lt_Some. }
    exists z1. split; [exact Hz1'|].
    rewrite E, list_insert_insert_eq. do 2 f_equal. cbn [length]. lia.
Qed.

(** C10. A visible point whose third coordinate is exactly 0 is treated as
    valid. When its squared reprojection error exceeds the positive
    threshold in each of its visibility entries, each entry increments the
    count: the call returns the number of entries, the third coordinate is
    still a zero and the point still valid, and a second call on the same
    data counts every entry again. *)
Theorem zero_depth_counted_again Xs xs views visibility T p X :
  (0 <? T)%float = true ->
  Xs !! p = Some X -> Double.is_zero (Point3d.z X) = true ->
  Forall (fun e => Z.to_nat e.2 = p /\
            forall z0, Double.is_zero z0 = true ->
                       exceeds Matx33d Rodrigues Matx33d_mul xs views T
                         (with_z X z0) e) visibility ->
  invalid X = false /\
  exists z1 z2,
    Double.is_zero z1 = true /\ invalid (with_z X z1) = false /\
    mark Xs xs views visibility T
    = Some (Z.of_nat (length visibility), <[p := with_z X z1]> Xs) /\
    Double.is_zero z2 = true /\ invalid (with_z X z2) = false /\
    mark (<[p := with_z X z1]> Xs) xs views visibility T
    = Some (Z.of_nat (length visibility), <[p := with_z X z2]> Xs).
Proof.
  intros HT%DoubleFacts.positive_not_le_zero EX HZ HF.
  split; [by apply DoubleFacts.zero_not_negative|].
  rewrite <- (with_z_self X) in EX.
  destruct (loop_zero xs views T visibility p X HF Xs 0 _ EX HZ) as (z1 & Hz1 & E1).
  assert (EX1 : <[p := with_z X z1]> Xs !! p = Some (with_z X z1)).
  { apply list_lookup_insert_eq. by eapply lookup_lt_Some. }
  destruct (loop_zero xs views T visibility p X HF _ 0 _ EX1 Hz1) as (z2 & Hz2 & E2).
  exists z1, z2. rewrite !mark_enabled by exact HT. rewrite E1, E2.
  rewrite list_insert_insert_eq. cbn [mbind option_bind fst snd].
  repeat split; try assumption; try reflexivity;
    by apply (DoubleFacts.zero_not_negative).
Qed.

Lemma mark_total Xs xs views visibility T :
  well_formed Xs xs views visibility = true ->
  is_Some (mark Xs xs views visibility T).
Proof.
  intros Hwf. destruct (T <=? 0)%float eqn:ET.
  - rewrite mark_disabled by exact ET. by eexists.
  - rewrite mark_enabled by exact ET.
    destruct (loop_total xs views T visibility Xs 0 Hwf) as (Xs' & n' & ->).
    by eexists.
Qed.

End MarkerTheory.

(** ** The residual builders *)

Section BuilderTheory.
Implicit Types (Xs : list Point3d.t) (xs : list (list KeyPoint))
  (views : list Vec11d.t) (visible : Z * Z) (problem : Problem).

Lemma addCostFunc11DOF_body_block Xs xs views lw problem visible :
  SFM.addCostFunc11DOF_body Xs xs views lw problem visible
  = b ← residual_block create11DOF Xs xs views lw visible; Some (problem ++ [b]).
Proof.
  unfold SFM.addCostFunc11DOF_body, residual_block, observation.
  destruct (Xs !! _); cbn [mbind option_bind]; [|reflexivity].
  destruct (xs !! _) as [kps|]; cbn [mbind option_bind]; [|reflexivity].
  destruct (kps !! _); cbn [mbind option_bind]; [|reflexivity].
  destruct (views !! _); reflexivity.
Qed.

Lemma addCostFunc7DOF_body_block Xs xs views lw problem visible :
  SFM.addCostFunc7DOF_body Xs xs views lw problem visible
  = b ← residual_block create7DOF Xs xs views lw visible; Some (problem ++ [b]).
Proof.
  unfold SFM.addCostFunc7DOF_body, residual_block, observation.
  destruct (Xs !! _); cbn [mbind option_bind]; [|reflexivity].
  destruct (xs !! _) as [kps|]; cbn [mbind option_bind]; [|reflexivity].
  destruct (kps !! _); cbn [mbind option_bind]; [|reflexivity].
  destruct (views !! _); reflexivity.
Qed.

Lemma addCostFunc6DOF_body_block Xs xs views lw problem visible :
  SFM.addCostFunc6DOF_body Xs xs views lw problem visible
  = b ← residual_block create6DOF Xs xs views lw visible; Some (problem ++ [b]).
Proof.
  unfold SFM.addCostFunc6DOF_body, residual_block, observation.
  destruct (Xs !! _); cbn [mbind option_bind]; [|reflexivity].
  destruct (xs !! _) as [kps|]; cbn [mbind option_bind]; [|reflexivity].
  destruct (kps !! _); cbn [mbind option_bind]; [|reflexivity].
  destruct (views !! _); reflexivity.
Qed.

Lemma residual_block_total create Xs xs views lw visible :
  entry_in_range (length Xs) xs views visible = true ->
  is_Some (residual_block create Xs xs views lw visible).
Proof.
  unfold entry_in_range, residual_block. intros [H1 H2]%andb_true_iff.
  apply bool_decide_eq_true in H1, H2.
  apply lookup_lt_is_Some in H1 as [X ->]. destruct H2 as [vx ->]. by eexists.
Qed.

(** A loop that appends the block of each entry is defined on well-formed
    inputs. *)
Lemma builder_total create body Xs xs views lw visibility problem :
  (forall p e, body p e = b ← residual_block create Xs xs views lw e; Some (p ++ [b])) ->
  well_formed Xs xs views visibility = true ->
  exists blocks, for_each body visibility problem = Some (problem ++ blocks).
Proof.
  intros Hb Hwf.
  assert (exists bs, Forall2 (fun e b => residual_block create Xs xs views lw e = Some b)
                       visibility bs) as [bs HF].
  { unfold well_formed in Hwf. rewrite forallb_forall in Hwf.
    induction visibility as [|e l IH].
    - exists []. constructor.
    - destruct IH as [bs HF]; [intros; apply Hwf; by right|].
      destruct (residual_block_total create Xs xs views lw e) as [b Eb];
        [apply Hwf; by left|].
      exists (b :: bs). by constructor. }
  exists bs. eapply for_each_collect; eauto.
Qed.

(** Two enumerations of the same entries make a builder register the same
    blocks, up to their order. *)
Lemma builder_permutation create body Xs xs views lw l1 l2 problem :
  (forall p e, body p e = b ← residual_block create Xs xs views lw e; Some (p ++ [b])) ->
  well_formed Xs xs views l1 = true -> l1 ≡ₚ l2 ->
  exists blocks1 blocks2,
    for_each body l1 problem = Some (problem ++ blocks1) /\
    for_each body l2 problem = Some (problem ++ blocks2) /\
    blocks1 ≡ₚ blocks2.
Proof.
  intros Hb Hwf Hp.
  destruct (builder_total create body Xs xs views lw l1 problem Hb Hwf) as [bs1 E1].
  destruct (for_each_collect_permutation _ body Hb l1 l2 problem _ Hp E1)
    as (bs1' & bs2 & Heq & E2 & HP).
  apply app_inv_head in Heq. subst bs1'. eauto.
Qed.

End BuilderTheory.

(** ** Iteration order of the visibility index *)

(** C5. Two enumerations of the same visibility map give the same results.
    On well-formed inputs, [markNoisyPoints] with no third coordinate equal
    to zero returns the same count and leaves the same point vector, and
    each residual builder registers the same residual blocks up to their
    order. *)
Theorem visibility_order_independent
    (Matx33d : Type) (Rodrigues : float * float * float -> Matx33d)
    (Matx33d_mul : Matx33d -> Point3d.t -> Point3d.t)
    (Xs : list Point3d.t) (xs : list (list KeyPoint)) (views : list Vec11d.t)
    (l1 l2 : SFM.VisibilityGraph) (T loss_width : float) (problem : Problem) :
  well_formed Xs xs views l1 = true -> l1 ≡ₚ l2 ->
  (Forall nonzero_z Xs ->
   exists n_mark Xs',
     SFM.markNoisyPoints Matx33d Rodrigues Matx33d_mul Xs xs views l1 T
       = Some (n_mark, Xs') /\
     SFM.markNoisyPoints Matx33d Rodrigues Matx33d_mul Xs xs views l2 T
       = Some (n_mark, Xs')) /\
  (exists blocks1 blocks2,
     SFM.addCostFunc11DOF problem Xs xs views l1 loss_width
       = Some (true, problem ++ blocks1) /\
     SFM.addCostFunc11DOF problem Xs xs views l2 loss_width
       = Some (true, problem ++ blocks2) /\
     blocks1 ≡ₚ blocks2) /\
  (exists blocks1 blocks2,
     SFM.addCostFunc7DOF problem Xs xs views l1 loss_width
       = Some (true, problem ++ blocks1) /\
     SFM.addCostFunc7DOF problem Xs xs views l2 loss_width
       = Some (true, problem ++ blocks2) /\
     blocks1 ≡ₚ blocks2) /\
  (exists blocks1 blocks2,
     SFM.addCostFunc6DOF problem Xs xs views l1 loss_width
       = Some (true, problem ++ blocks1) /\
     SFM.addCostFunc6DOF problem Xs xs views l2 loss_width
       = Some (true, problem ++ blocks2) /\
     blocks1 ≡ₚ blocks2).
Proof.
  intros Hwf Hp. split; [|split; [|split]].
  - intros HZ.
    destruct (mark_total Matx33d Rodrigues Matx33d_mul Xs xs views l1 T Hwf)
      as [[n_mark Xs'] E].
    exists n_mark, Xs'. split; [exact E|].
    by rewrite <- (mark_permutation _ _ _ Xs xs views l1 l2 T HZ Hwf Hp).
  - destruct (builder_permutation create11DOF _ Xs xs views loss_width l1 l2 problem
                (addCostFunc11DOF_body_block Xs xs views loss_width) Hwf Hp)
      as (b1 & b2 & E1 & E2 & HP).
    exists b1, b2. unfold SFM.addCostFunc11DOF, Problem in *. by rewrite E1, E2.
  - destruct (builder_permutation create7DOF _ Xs xs views loss_width l1 l2 problem
                (addCostFunc7DOF_body_block Xs xs views loss_width) Hwf Hp)
      as (b1 & b2 & E1 & E2 & HP).
    exists b1, b2. unfold SFM.addCostFunc7DOF, Problem in *. by rewrite E1, E2.
  - destruct (builder_permutation create6DOF _ Xs xs views loss_width l1 l2 problem
                (addCostFunc6DOF_body_block Xs xs views loss_width) Hwf Hp)
      as (b1 & b2 & E1 & E2 & HP).
    exists b1, b2. unfold SFM.addCostFunc6DOF, Problem in *. by rewrite E1, E2.
Qed.

(** ** The residual functors *)

Section FunctorTheory.
Variable AngleAxisRotatePoint :
  float * float * float -> float * float * float -> float * float * float.





End FunctorTheory.

(** * Further properties *)

(** ** More on the composite key *)

(** X1. Whatever the key, the decoded image and keypoint indices lie in
    [0, 2^16); whatever the indices, the key is a [uint]. *)
Theorem key_fields_bounded (i p key : Z) :
  0 <= Key.getImIdx key < 2 ^ 16 /\
  0 <= Key.getPtIdx key < 2 ^ 16 /\
  Key.is_uint (Key.genKey i p).
Proof.
  split; [apply KeyFacts.getImIdx_is_16bit|].
  split; [apply KeyFacts.getPtIdx_is_16bit | apply KeyFacts.genKey_is_uint].
Qed.

(** X2. Encoding the two fields decoded from a [uint] key gives the key
    back. *)
Theorem genKey_of_decoded (key : Z) :
  Key.is_uint key ->
  Key.genKey (Key.getImIdx key) (Key.getPtIdx key) = key.
Proof.
  unfold Key.is_uint, Key.uint_max. intros Hk.
  pose proof (KeyFacts.getImIdx_is_16bit key) as Hi.
  rewrite KeyFacts.genKey_arith by lia.
  rewrite KeyFacts.getImIdx_mod, KeyFacts.getPtIdx_mod.
  assert (Hq : 0 <= key / 2 ^ 16 < 2 ^ 16).
  { split; [apply Z.div_pos; lia|]. apply Z.div_lt_upper_bound; lia. }
  rewrite (Z.mod_small (key / 2 ^ 16)) by exact Hq.
  rewrite (Z.mul_comm (key / 2 ^ 16)), <- Z.div_mod by lia.
  apply Z.mod_small. lia.
Qed.

Lemma genKey_of_decoded_witness :
  Key.genKey (Key.getImIdx 196678) (Key.getPtIdx 196678) = 196678.
Proof.
  apply (genKey_of_decoded 196678). unfold Key.is_uint, Key.uint_max. lia.
Defined.

Lemma genKey_fields i p :
  0 <= i < 2 ^ 16 -> 0 <= p < 2 ^ 16 ->
  Key.getImIdx (Key.genKey i p) = i /\ Key.getPtIdx (Key.genKey i p) = p.
Proof.
  intros Hi Hp. split.
  - rewrite KeyFacts.getImIdx_genKey by lia.
    rewrite (Z.div_small p) by lia. rewrite Z.add_0_r. apply Z.mod_small. lia.
  - rewrite KeyFacts.getPtIdx_genKey by lia. apply Z.mod_small. lia.
Qed.

(** X3. On indices of 16 bits the key is injective and ordered like the
    pairs: image index first, keypoint index second. *)
Theorem genKey_injective_ordered (i p i' p' : Z) :
  0 <= i < 2 ^ 16 -> 0 <= p < 2 ^ 16 ->
  0 <= i' < 2 ^ 16 -> 0 <= p' < 2 ^ 16 ->
  (Key.genKey i p = Key.genKey i' p' -> i = i' /\ p = p') /\
  (Key.genKey i p < Key.genKey i' p' <-> i < i' \/ (i = i' /\ p < p')).
Proof.
  intros Hi Hp Hi' Hp'. split.
  - intros Heq.
    destruct (genKey_fields i p Hi Hp) as [E1 E2].
    destruct (genKey_fields i' p' Hi' Hp') as [E1' E2'].
    rewrite Heq in E1, E2. split; congruence.
  - rewrite !KeyFacts.genKey_arith by lia.
    rewrite !Z.mod_small by lia. lia.
Qed.

Lemma genKey_injective_ordered_witness :
  (Key.genKey 3 70 = Key.genKey 4 1 -> 3 = 4 /\ 70 = 1) /\
  (Key.genKey 3 70 < Key.genKey 4 1 <-> 3 < 4 \/ (3 = 4 /\ 70 < 1)).
Proof. apply (genKey_injective_ordered 3 70 4 1); lia. Defined.

(** ** More on loops *)

Lemma for_each_app {S E : Type} (body : S -> E -> option S) (l1 l2 : list E) (s : S) :
  for_each body (l1 ++ l2) s = s' ← for_each body l1 s; for_each body l2 s'.
Proof.
  revert s. induction l1 as [|e l1 IH]; intros s; cbn [for_each app]; [reflexivity|].
  destruct (body s e) as [s1|]; cbn [mbind option_bind]; [apply IH | reflexivity].
Qed.


(** ** More facts about [double] *)

Lemma double_mul_comm (a b : float) : (a * b)%float = (b * a)%float.
Proof.
  apply Prim2SF_inj. rewrite !FloatAxioms.mul_spec.
  destruct (Prim2SF a) as [s|s| |s m e], (Prim2SF b) as [s'|s'| |s' m' e'];
    cbn [SF64mul SFmul]; rewrite ?(xorb_comm s s'); try reflexivity.
  by rewrite (Pos.mul_comm m m'), (Z.add_comm e e').
Qed.

(** Nothing compares greater than NaN or than [+infinity], and neither is
    [<= 0]. *)
Lemma double_no_greater (t d : float) :
  t = nan \/ t = infinity ->
  (t <? d)%float = false /\ (t <=? 0)%float = false.
Proof.
  intros [-> | ->]; (split; [|reflexivity]);
    rewrite FloatAxioms.ltb_spec.
  - reflexivity.
  - change (Prim2SF infinity) with (S754_infinity false).
    destruct (Prim2SF d) as [s|s| |s m e]; try destruct s; reflexivity.
Qed.

Lemma for_each_ext {S E : Type} (body body' : S -> E -> option S) (l : list E) (s : S) :
  (forall s0 e, body s0 e = body' s0 e) ->
  for_each body l s = for_each body' l s.
Proof.
  intros Hb. revert s. induction l as [|e l IH]; intros s; cbn [for_each]; [reflexivity|].
  rewrite Hb. destruct (body' s e); cbn [mbind option_bind]; [apply IH | reflexivity].
Qed.


(** ** More on the residual builders *)

Section BuilderExtras.
Implicit Types (Xs : list Point3d.t) (xs : list (list KeyPoint))
  (views : list Vec11d.t) (visible : Z * Z) (problem : Problem).

(** What the block of an entry is made of. *)
Lemma residual_block_fields create Xs xs views lw visible b :
  residual_block create Xs xs views lw visible = Some b ->
  exists view x,
    observation xs views visible = Some (view, x) /\
    views !! view_block b = Some view /\
    is_Some (Xs !! X_block b) /\
    cost_func b = create view x /\
    loss_func b = SFM.make_loss lw /\
    view_block b = Z.to_nat (Key.getImIdx visible.1) /\
    X_block b = Z.to_nat visible.2.
Proof.
  unfold residual_block.
  destruct (Xs !! _) as [X|] eqn:EX; cbn [mbind option_bind]; [|discriminate].
  destruct (observation xs views visible) as [[view x]|] eqn:EO;
    cbn [mbind option_bind]; [|discriminate].
  intros [= <-]. exists view, x. cbn.
  split; [reflexivity|]. split.
  { unfold observation in EO.
    destruct (xs !! _) as [kps|]; cbn [mbind option_bind] in EO; [|discriminate].
    destruct (kps !! _); cbn [mbind option_bind] in EO; [|discriminate].
    destruct (views !! _) eqn:EV; cbn [mbind option_bind] in EO; [|discriminate].
    congruence. }
  split; [by eexists|]. done.
Qed.

Lemma residual_block_in_range create Xs xs views lw visible :
  is_Some (residual_block create Xs xs views lw visible) <->
  entry_in_range (length Xs) xs views visible = true.
Proof.
  split; [|apply residual_block_total].
  intros [b Hb]. unfold entry_in_range, residual_block in *.
  destruct (Xs !! _) as [X|] eqn:EX; cbn [mbind option_bind] in Hb; [|discriminate].
  destruct (observation xs views visible) as [vx|] eqn:EO; [|discriminate].
  apply andb_true_iff. split; apply bool_decide_eq_true; [|by eexists].
  by eapply lookup_lt_Some.
Qed.

(** A loop that appends the block of each entry is defined exactly on the
    well-formed inputs. *)
Lemma builder_defined create body Xs xs views lw visibility problem :
  (forall p e, body p e = b ← residual_block create Xs xs views lw e; Some (p ++ [b])) ->
  is_Some (for_each body visibility problem) <->
  well_formed Xs xs views visibility = true.
Proof.
  intros Hb. split.
  - intros [p' (blocks & HF & _)%(for_each_collect _ _ Hb)].
    unfold well_formed. apply forallb_forall. intros e Hin.
    apply list_elem_of_In, list_elem_of_lookup in Hin as [k Hk].
    destruct (Forall2_lookup_l _ _ _ _ _ HF Hk) as (b & _ & Eb).
    apply (residual_block_in_range create _ _ _ lw). by eexists.
  - intros Hwf.
    destruct (builder_total create body Xs xs views lw visibility problem Hb Hwf)
      as [blocks ->]. by eexists.
Qed.

Lemma builder_is_Some (r : option Problem) :
  is_Some (p ← r; Some (true, p)) <-> is_Some r.
Proof. destruct r; cbn; split; intros [? ?]; try discriminate; by eexists. Qed.

(** X4. Each of the three builders is defined exactly when every subscript
    it evaluates is in range: the point, the image, the keypoint and the
    camera of every visibility entry. *)
Theorem builders_defined_iff_well_formed problem Xs xs views visibility loss_width :
  (is_Some (SFM.addCostFunc11DOF problem Xs xs views visibility loss_width)
   <-> well_formed Xs xs views visibility = true) /\
  (is_Some (SFM.addCostFunc7DOF problem Xs xs views visibility loss_width)
   <-> well_formed Xs xs views visibility = true) /\
  (is_Some (SFM.addCostFunc6DOF problem Xs xs views visibility loss_width)
   <-> well_formed Xs xs views visibility = true).
Proof.
  unfold SFM.addCostFunc11DOF, SFM.addCostFunc7DOF, SFM.addCostFunc6DOF.
  rewrite !builder_is_Some. split; [|split].
  - apply (builder_defined create11DOF _ Xs xs views loss_width),
      addCostFunc11DOF_body_block.
  - apply (builder_defined create7DOF _ Xs xs views loss_width),
      addCostFunc7DOF_body_block.
  - apply (builder_defined create6DOF _ Xs xs views loss_width),
      addCostFunc6DOF_body_block.
Qed.

(** The result of a builder: the flag [true], the earlier blocks, then the
    block of each entry in the order of the enumeration. *)
Lemma builder_result create body Xs xs views lw visibility problem ok problem' :
  (forall p e, body p e = b ← residual_block create Xs xs views lw e; Some (p ++ [b])) ->
  (p ← for_each body visibility problem; Some (true, p)) = Some (ok, problem') ->
  ok = true /\
  exists blocks,
    problem' = problem ++ blocks /\
    Forall2 (fun e b => residual_block create Xs xs views lw e = Some b)
            visibility blocks.
Proof.
  intros Hb.
  destruct (for_each body visibility problem) as [p1|] eqn:E;
    cbn [mbind option_bind]; [|discriminate].
  intros [= <- <-]. split; [reflexivity|].
  apply (for_each_collect _ _ Hb) in E as (blocks & HF & ->). eauto.
Qed.

(** X5. When [addCostFunc11DOF] returns, it returns [true]; the problem
    keeps its earlier blocks and gains one block per visibility entry, in
    the order of the enumeration. The block of an entry carries the
    observation [xs[img_idx][pt_idx].pt] and registers the camera
    [views[img_idx]] and the point [Xs[visible->second]], both of which
    exist. *)
Theorem addCostFunc11DOF_blocks problem Xs xs views visibility loss_width ok problem' :
  SFM.addCostFunc11DOF problem Xs xs views visibility loss_width
    = Some (ok, problem') ->
  ok = true /\
  exists blocks,
    problem' = problem ++ blocks /\
    length blocks = length visibility /\
    forall k visible,
      visibility !! k = Some visible ->
      exists b view x,
        blocks !! k = Some b /\
        observation xs views visible = Some (view, x) /\
        cost_func b = AutoDiff11DOF {| x11 := x |} /\
        view_block b = Z.to_nat (Key.getImIdx visible.1) /\
        X_block b = Z.to_nat visible.2 /\
        views !! view_block b = Some view /\
        is_Some (Xs !! X_block b).
Proof.
  unfold SFM.addCostFunc11DOF.
  intros [-> (blocks & -> & HF)]%(builder_result create11DOF _ Xs xs views loss_width);
    [|apply addCostFunc11DOF_body_block].
  split; [reflexivity|]. exists blocks. split; [reflexivity|].
  split; [symmetry; eapply Forall2_length, HF|].
  intros k visible Hk.
  destruct (Forall2_lookup_l _ _ _ _ _ HF Hk) as (b & Eb & Hblock).
  destruct (residual_block_fields _ _ _ _ _ _ _ Hblock)
    as (view & x & EO & EV & EX & EC & _ & Ev & Ex).
  exists b, view, x. done.
Qed.

(** X20. When [addCostFunc6DOF] returns, it returns [true] and adds one
    block per visibility entry, in the order of the enumeration. The block
    of an entry is created from the observation [xs[img_idx][pt_idx].pt]
    and from copies of the focal length and the principal point stored in
    [views[img_idx]] at that time, the camera the block registers. *)
Theorem addCostFunc6DOF_blocks problem Xs xs views visibility loss_width ok problem' :
  SFM.addCostFunc6DOF problem Xs xs views visibility loss_width
    = Some (ok, problem') ->
  ok = true /\
  exists blocks,
    problem' = problem ++ blocks /\
    length blocks = length visibility /\
    forall k visible,
      visibility !! k = Some visible ->
      exists b view x,
        blocks !! k = Some b /\
        observation xs views visible = Some (view, x) /\
        cost_func b = ReprojectionError_create x view.[6] view.[7] view.[8] /\
        view_block b = Z.to_nat (Key.getImIdx visible.1) /\
        X_block b = Z.to_nat visible.2 /\
        views !! view_block b = Some view /\
        is_Some (Xs !! X_block b).
Proof.
  unfold SFM.addCostFunc6DOF.
  intros [-> (blocks & -> & HF)]%(builder_result create6DOF _ Xs xs views loss_width);
    [|apply addCostFunc6DOF_body_block].
  split; [reflexivity|]. exists blocks. split; [reflexivity|].
  split; [symmetry; eapply Forall2_length, HF|].
  intros k visible Hk.
  destruct (Forall2_lookup_l _ _ _ _ _ HF Hk) as (b & Eb & Hblock).
  destruct (residual_block_fields _ _ _ _ _ _ _ Hblock)
    as (view & x & EO & EV & EX & EC & _ & Ev & Ex).
  exists b, view, x. done.
Qed.

(** X6. The loss of a registered block follows the sign of the width: every
    block a builder adds has the loss [CauchyLoss(loss_width)] when
    [loss_width > 0], and no loss function when [loss_width <= 0] or
    [loss_width] is NaN. *)
Theorem builders_loss problem Xs xs views visibility loss_width :
  forall result,
    result = SFM.addCostFunc11DOF problem Xs xs views visibility loss_width \/
    result = SFM.addCostFunc7DOF problem Xs xs views visibility loss_width \/
    result = SFM.addCostFunc6DOF problem Xs xs views visibility loss_width ->
  forall ok blocks,
    result = Some (ok, problem ++ blocks) ->
    ((0 <? loss_width)%float = true ->
     Forall (fun b => loss_func b = Some (CauchyLoss loss_width)) blocks) /\
    ((loss_width <=? 0)%float = true \/ loss_width = nan ->
     Forall (fun b => loss_func b = None) blocks).
Proof.
  intros result Hres ok blocks E.
  assert (Hloss : Forall (fun b => loss_func b = SFM.make_loss loss_width) blocks).
  { assert (exists create,
              Forall2 (fun e b => residual_block create Xs xs views loss_width e = Some b)
                      visibility blocks) as [create HF].
    { destruct Hres as [->|[->| ->]].
      - exists create11DOF. unfold SFM.addCostFunc11DOF in E.
        apply (builder_result create11DOF _ Xs xs views loss_width) in E
          as [_ (blocks' & ->%app_inv_head & HF)];
          [exact HF | apply addCostFunc11DOF_body_block].
      - exists create7DOF. unfold SFM.addCostFunc7DOF in E.
        apply (builder_result create7DOF _ Xs xs views loss_width) in E
          as [_ (blocks' & ->%app_inv_head & HF)];
          [exact HF | apply addCostFunc7DOF_body_block].
      - exists create6DOF. unfold SFM.addCostFunc6DOF in E.
        apply (builder_result create6DOF _ Xs xs views loss_width) in E
          as [_ (blocks' & ->%app_inv_head & HF)];
          [exact HF | apply addCostFunc6DOF_body_block]. }
    apply Forall_lookup. intros k b Hk.
    destruct (Forall2_lookup_r _ _ _ _ _ HF Hk) as (e & _ & Hblock).
    by destruct (residual_block_fields _ _ _ _ _ _ _ Hblock)
      as (view & x & _ & _ & _ & _ & EL & _). }
  unfold SFM.make_loss in Hloss. split.
  - intros Hpos. by rewrite Hpos in Hloss.
  - intros Hle.
    assert ((0 <? loss_width)%float = false) as Hn.
    { destruct Hle as [Hle| ->]; [|reflexivity].
      revert Hle. rewrite FloatAxioms.ltb_spec, FloatAxioms.leb_spec.
      change (Prim2SF 0) with (S754_zero false).
      destruct (Prim2SF loss_width) as [s|s| |s m e]; cbn; try discriminate;
        destruct s; cbn; congruence. }
    by rewrite Hn in Hloss.
Qed.

(** X7. Each builder composes over the enumeration: building the residuals
    of the entries in two batches, the second on the problem the first
    returns, gives what one call on the whole enumeration gives, undefined
    cases included. *)
Theorem builders_compose problem Xs xs views l1 l2 loss_width :
  SFM.addCostFunc11DOF problem Xs xs views (l1 ++ l2) loss_width
  = (r ← SFM.addCostFunc11DOF problem Xs xs views l1 loss_width;
     SFM.addCostFunc11DOF r.2 Xs xs views l2 loss_width) /\
  SFM.addCostFunc7DOF problem Xs xs views (l1 ++ l2) loss_width
  = (r ← SFM.addCostFunc7DOF problem Xs xs views l1 loss_width;
     SFM.addCostFunc7DOF r.2 Xs xs views l2 loss_width) /\
  SFM.addCostFunc6DOF problem Xs xs views (l1 ++ l2) loss_width
  = (r ← SFM.addCostFunc6DOF problem Xs xs views l1 loss_width;
     SFM.addCostFunc6DOF r.2 Xs xs views l2 loss_width).
Proof.
  unfold SFM.addCostFunc11DOF, SFM.addCostFunc7DOF, SFM.addCostFunc6DOF.
  rewrite !for_each_app.
  repeat split;
    match goal with
    | |- context [for_each ?f l1 problem] => destruct (for_each f l1 problem)
    end; reflexivity.
Qed.

Lemma Forall2_blocks_agree create create' Xs xs views lw visibility blocks :
  Forall2 (fun e b => residual_block create Xs xs views lw e = Some b)
          visibility blocks ->
  exists blocks',
    Forall2 (fun e b => residual_block create' Xs xs views lw e = Some b)
            visibility blocks' /\
    Forall2 (fun b b' => view_block b = view_block b' /\
                         X_block b = X_block b' /\
                         loss_func b = loss_func b') blocks blocks'.
Proof.
  induction 1 as [|e b l bs Hb _ (bs' & HF & HA)].
  - exists []. split; constructor.
  - unfold residual_block in Hb.
    destruct (Xs !! Z.to_nat e.2) as [X|] eqn:EX;
      cbn [mbind option_bind] in Hb; [|discriminate].
    destruct (observation xs views e) as [vx|] eqn:EO;
      cbn [mbind option_bind] in Hb; [|discriminate].
    injection Hb as <-.
    eexists (_ :: bs'). split.
    + constructor; [|exact HF]. unfold residual_block.
      rewrite EX, EO. reflexivity.
    + constructor; [done | exact HA].
Qed.

(** X8. On the same inputs the three builders register the same parameter
    blocks with the same loss, entry by entry: when the 11-DOF builder
    returns, so do the 7-DOF and the 6-DOF builders, and their blocks
    differ from its blocks by the cost function only. *)
Theorem builders_same_parameter_blocks problem Xs xs views visibility
    loss_width ok problem11 :
  SFM.addCostFunc11DOF problem Xs xs views visibility loss_width
    = Some (ok, problem11) ->
  exists blocks11 blocks7 blocks6,
    problem11 = problem ++ blocks11 /\
    SFM.addCostFunc7DOF problem Xs xs views visibility loss_width
      = Some (true, problem ++ blocks7) /\
    SFM.addCostFunc6DOF problem Xs xs views visibility loss_width
      = Some (true, problem ++ blocks6) /\
    Forall2 (fun b b' => view_block b = view_block b' /\
                         X_block b = X_block b' /\
                         loss_func b = loss_func b') blocks11 blocks7 /\
    Forall2 (fun b b' => view_block b = view_block b' /\
                         X_block b = X_block b' /\
                         loss_func b = loss_func b') blocks11 blocks6.
Proof.
  unfold SFM.addCostFunc11DOF.
  intros [_ (blocks11 & -> & HF)]%(builder_result create11DOF _ Xs xs views loss_width);
    [|apply addCostFunc11DOF_body_block].
  destruct (Forall2_blocks_agree create11DOF create7DOF _ _ _ _ _ _ HF)
    as (blocks7 & HF7 & HA7).
  destruct (Forall2_blocks_agree create11DOF create6DOF _ _ _ _ _ _ HF)
    as (blocks6 & HF6 & HA6).
  exists blocks11, blocks7, blocks6. split; [reflexivity|].
  unfold SFM.addCostFunc7DOF, SFM.addCostFunc6DOF, Problem in *.
  rewrite (proj2 (for_each_collect _ _
             (addCostFunc7DOF_body_block Xs xs views loss_width) _ _ _)
             (ex_intro _ blocks7 (conj HF7 eq_refl))).
  rewrite (proj2 (for_each_collect _ _
             (addCostFunc6DOF_body_block Xs xs views loss_width) _ _ _)
             (ex_intro _ blocks6 (conj HF6 eq_refl))).
  done.
Qed.

(** X9. A key made by [genKey] from an image index and a keypoint index of
    16 bits leads the builder to the observation and the camera of those
    indices: the block registered for the entry [(genKey i p, id)] carries
    [xs[i][p].pt] and registers [views[i]] and [Xs[id]]. *)
Theorem addCostFunc11DOF_genKey problem Xs xs views loss_width
    (i p id : Z) X kps kp view :
  0 <= i < 2 ^ 16 -> 0 <= p < 2 ^ 16 ->
  Xs !! Z.to_nat id = Some X ->
  xs !! Z.to_nat i = Some kps -> kps !! Z.to_nat p = Some kp ->
  views !! Z.to_nat i = Some view ->
  SFM.addCostFunc11DOF problem Xs xs views [(Key.genKey i p, id)] loss_width
  = Some (true,
          problem ++ [ {| cost_func := AutoDiff11DOF {| x11 := pt kp |};
                          loss_func := SFM.make_loss loss_width;
                          view_block := Z.to_nat i;
                          X_block := Z.to_nat id |} ]).
Proof.
  intros Hi Hp EX Ekps Ekp Eview.
  destruct (genKey_fields i p Hi Hp) as [Ei Ep].
  unfold SFM.addCostFunc11DOF. cbn [for_each].
  unfold SFM.addCostFunc11DOF_body. cbn [fst snd].
  rewrite Ei, Ep, EX, Ekps. cbn [mbind option_bind].
  rewrite Ekp. cbn [mbind option_bind]. rewrite Eview. reflexivity.
Qed.

End BuilderExtras.

(** ** More on the outlier marker *)

Section MarkFrom.
Implicit Types (m : nat -> Point3d.t -> bool) (Xs : list Point3d.t).

Lemma mark_from_length m j Xs : length (mark_from m j Xs).1 = length Xs.
Proof.
  revert j. induction Xs as [|X Xs IH]; intros j; cbn [mark_from]; [reflexivity|].
  destruct (m j X); cbn [fst length]; by rewrite IH.
Qed.

Lemma mark_from_lookup m j Xs k :
  (mark_from m j Xs).1 !! k
  = (fun X => if m (j + k)%nat X then Point3d.negate_z X else X) <$> Xs !! k.
Proof.
  revert j k. induction Xs as [|X Xs IH]; intros j k; cbn [mark_from]; [reflexivity|].
  destruct k as [|k].
  - rewrite Nat.add_0_r. destruct (m j X) eqn:Em; cbn; by rewrite Em.
  - replace (j + S k)%nat with (S j + k)%nat by lia.
    destruct (m j X); cbn [fst]; apply IH.
Qed.

Lemma mark_from_ext m m' j Xs :
  (forall k X, Xs !! k = Some X -> m (j + k)%nat X = m' (j + k)%nat X) ->
  mark_from m j Xs = mark_from m' j Xs.
Proof.
  revert j. induction Xs as [|X Xs IH]; intros j Hm; cbn [mark_from]; [reflexivity|].
  rewrite (IH (S j)).
  - specialize (Hm 0%nat X eq_refl). rewrite Nat.add_0_r in Hm. by rewrite Hm.
  - intros k Y Hk. replace (S j + k)%nat with (j + S k)%nat by lia. by apply Hm.
Qed.

(** Selecting one more point negates it and adds one to the count. *)
Lemma mark_from_step m m' j Xs p X :
  Xs !! p = Some X ->
  m (j + p)%nat X = false -> m' (j + p)%nat X = true ->
  (forall k Y, k <> p -> Xs !! k = Some Y -> m' (j + k)%nat Y = m (j + k)%nat Y) ->
  mark_from m' j Xs
  = (<[p := Point3d.negate_z X]> (mark_from m j Xs).1, (mark_from m j Xs).2 + 1).
Proof.
  revert j p. induction Xs as [|X0 Xs IH]; intros j p EX Hm Hm' Hother; [done|].
  cbn [mark_from]. destruct p as [|p].
  - injection EX as ->. rewrite Nat.add_0_r in Hm, Hm'. rewrite Hm, Hm'.
    rewrite (mark_from_ext m' m (S j) Xs).
    + reflexivity.
    + intros k Y Hk. replace (S j + k)%nat with (j + S k)%nat by lia.
      by apply Hother.
  - cbn in EX.
    rewrite (IH (S j) p EX).
    + specialize (Hother 0%nat X0 ltac:(lia) eq_refl).
      rewrite Nat.add_0_r in Hother. rewrite Hother.
      destruct (m j X0); reflexivity.
    + by replace (S j + p)%nat with (j + S p)%nat by lia.
    + by replace (S j + p)%nat with (j + S p)%nat by lia.
    + intros k Y Hk HY. replace (S j + k)%nat with (j + S k)%nat by lia.
      apply Hother; [lia | exact HY].
Qed.

Lemma mark_from_count_bounds m j Xs :
  0 <= (mark_from m j Xs).2 <= Z.of_nat (length Xs).
Proof.
  revert j. induction Xs as [|X Xs IH]; intros j; cbn [mark_from length]; [simpl; lia|].
  specialize (IH (S j)). destruct (m j X); cbn [snd]; lia.
Qed.

(** When the selected points are valid and become invalid by negation, the
    count is the number of flags that flip. *)
Lemma mark_from_flipped m j Xs :
  Forall signed_z Xs ->
  (forall k X, Xs !! k = Some X -> m (j + k)%nat X = true -> invalid X = false) ->
  flipped Xs (mark_from m j Xs).1 = (mark_from m j Xs).2.
Proof.
  intros HS. revert j. induction HS as [|X Xs HX HS IH]; intros j Hm; [reflexivity|].
  cbn [mark_from].
  assert (IH' : flipped Xs (mark_from m (S j) Xs).1 = (mark_from m (S j) Xs).2).
  { apply IH. intros k Y Hk. replace (S j + k)%nat with (j + S k)%nat by lia.
    by apply Hm. }
  destruct (m j X) eqn:Em; cbn [fst snd flipped]; rewrite IH'.
  - assert (HI : invalid X = false).
    { apply (Hm 0%nat X eq_refl). by rewrite Nat.add_0_r. }
    destruct HX as [HX|HX]; [congruence|].
    rewrite HI, (negate_z_invalid X HX). cbn. lia.
  - destruct (invalid X); cbn; lia.
Qed.

End MarkFrom.

Section MarkerExtras.
Variable Matx33d : Type.
Variable Rodrigues : float * float * float -> Matx33d.
Variable Matx33d_mul : Matx33d -> Point3d.t -> Point3d.t.

Local Abbreviation body := (SFM.markNoisyPoints_body Matx33d Rodrigues Matx33d_mul).
Local Abbreviation dist2 := (SFM.reproj_dist2 Matx33d Rodrigues Matx33d_mul).
Local Abbreviation mark := (SFM.markNoisyPoints Matx33d Rodrigues Matx33d_mul).
Local Abbreviation exb := (exceedsb Matx33d Rodrigues Matx33d_mul).
Local Abbreviation outlier := (is_outlier Matx33d Rodrigues Matx33d_mul).

Implicit Types (Xs : list Point3d.t) (xs : list (list KeyPoint))
  (views : list Vec11d.t) (visible : Z * Z) (X : Point3d.t) (n : Z).

(** The loop body in terms of the test [exceedsb], for an entry in range. *)
Lemma body_exceedsb xs views T Xs n visible X :
  Xs !! Z.to_nat visible.2 = Some X ->
  is_Some (observation xs views visible) ->
  body xs views T (Xs, n) visible
  = Some (if negb (invalid X) && exb xs views T X visible
          then (<[Z.to_nat visible.2 := Point3d.negate_z X]> Xs, n + 1)
          else (Xs, n)).
Proof.
  intros EX [[view x] EO]. rewrite body_unfold, EX. cbn [mbind option_bind].
  unfold exceedsb. rewrite EO. cbn [mbind option_bind fst snd].
  destruct (invalid X); [reflexivity|]. cbn [negb andb].
  destruct (T <? dist2 view x X)%float; reflexivity.
Qed.

Lemma is_outlier_snoc xs views T l e j X :
  outlier xs views T (l ++ [e]) j X
  = outlier xs views T l j X
    || (negb (invalid X) && bool_decide (Z.to_nat e.2 = j)
        && exb xs views T X e).
Proof.
  unfold is_outlier.
  rewrite existsb_app. cbn [existsb]. rewrite orb_false_r.
  destruct (negb (invalid X)); cbn; [reflexivity|reflexivity].
Qed.

Lemma well_formed_snoc Xs xs views l e :
  well_formed Xs xs views (l ++ [e]) = true ->
  well_formed Xs xs views l = true /\
  entry_in_range (length Xs) xs views e = true.
Proof.
  unfold well_formed. rewrite forallb_app. cbn [forallb].
  rewrite andb_true_r. apply andb_true_iff.
Qed.

(** The loop of the marker in closed form, when every third coordinate is
    negative or positive: the outliers of the call are negated and counted,
    whatever the order of the entries. *)
Lemma loop_closed_form xs views T visibility Xs :
  well_formed Xs xs views visibility = true -> Forall signed_z Xs ->
  for_each (body xs views T) visibility (Xs, 0)
  = Some (mark_from (outlier xs views T visibility) 0 Xs).
Proof.
  intros Hwf HS. induction visibility as [|e l IH] using rev_ind.
  - cbn [for_each]. f_equal.
    rewrite (mark_from_ext _ (fun _ _ => false)).
    + clear. generalize 0%nat. induction Xs as [|X Xs IHX]; intros j; cbn [mark_from];
        [reflexivity|]. by rewrite <- IHX.
    + intros k X _. unfold is_outlier.
      cbn [existsb]. apply andb_false_r.
  - apply well_formed_snoc in Hwf as [Hwf He].
    rewrite for_each_app, (IH Hwf). cbn [mbind option_bind for_each].
    apply in_range_lookup in He as [Hlt (view & x & EO)].
    destruct (lookup_lt_is_Some_2 _ _ Hlt) as [X EX].
    set (p := Z.to_nat e.2) in *.
    set (m := outlier xs views T l) in *.
    set (m' := outlier xs views T (l ++ [e])).
    assert (Hm' : forall j Y, m' j Y
              = m j Y || (negb (invalid Y) && bool_decide (p = j) && exb xs views T Y e))
      by (intros; apply is_outlier_snoc).
    assert (HX : signed_z X) by (eapply Forall_lookup_1; eassumption).
    destruct (mark_from m 0 Xs) as [Ys n] eqn:EY.
    assert (EYp : Ys !! p = Some (if m p X then Point3d.negate_z X else X)).
    { replace Ys with (mark_from m 0 Xs).1 by (by rewrite EY).
      by rewrite mark_from_lookup, EX. }
    rewrite (body_exceedsb xs views T Ys n e _ EYp) by (by eexists).
    cbn [mbind option_bind]. f_equal.
    destruct (m p X) eqn:Emp.
    + (* already marked by an earlier entry: skipped *)
      assert (HI : invalid X = false).
      { unfold m, is_outlier in Emp.
        apply andb_true_iff in Emp as [Emp _]. by apply negb_true_iff. }
      destruct HX as [HX|HX]; [congruence|].
      rewrite (negate_z_invalid X HX). cbn [negb andb].
      rewrite <- EY. apply mark_from_ext. intros k Y HY. cbn [Nat.add].
      rewrite Hm'. destruct (decide (p = k)) as [<-|Hne].
      * assert (Y = X) as -> by congruence. by rewrite Emp.
      * rewrite (bool_decide_eq_false_2 _ Hne), andb_false_r. cbn.
        by rewrite orb_false_r.
    + destruct (negb (invalid X) && exb xs views T X e) eqn:Eb.
      * (* marked by this entry *)
        replace Ys with (mark_from m 0 Xs).1 by (by rewrite EY).
        replace n with (mark_from m 0 Xs).2 by (by rewrite EY).
        symmetry. apply (mark_from_step m m' 0 Xs p X EX); cbn [Nat.add].
        -- exact Emp.
        -- rewrite Hm', Emp. apply andb_true_iff in Eb as [-> ->].
           by rewrite bool_decide_eq_true_2.
        -- intros k Y Hne HY. rewrite Hm'.
           rewrite (bool_decide_eq_false_2 (p = k)) by congruence.
           rewrite andb_false_r. cbn. apply orb_false_r.
      * (* not marked *)
        rewrite <- EY. apply mark_from_ext. intros k Y HY. cbn [Nat.add].
        rewrite Hm'. destruct (decide (p = k)) as [<-|Hne].
        -- assert (Y = X) as -> by congruence.
           rewrite Emp, bool_decide_eq_true_2 by done.
           rewrite andb_true_r. by rewrite Eb.
        -- rewrite (bool_decide_eq_false_2 _ Hne), andb_false_r. cbn.
           by rewrite orb_false_r.
Qed.

Lemma is_outlier_valid xs views T visibility j X :
  outlier xs views T visibility j X = true -> invalid X = false.
Proof.
  unfold is_outlier. intros [H _]%andb_true_iff. by apply negb_true_iff.
Qed.

(** X10. For a positive threshold, well-formed inputs and third coordinates
    that are all negative or positive, the marker has a closed form: it
    negates the third coordinate of exactly the valid points whose squared
    error exceeds the threshold in at least one of their visibility
    entries, leaves the other points as they are, and returns the number of
    points it negated. *)
Theorem markNoisyPoints_closed_form Xs xs views visibility T :
  (0 <? T)%float = true ->
  well_formed Xs xs views visibility = true -> Forall signed_z Xs ->
  exists n_mark Xs',
    mark Xs xs views visibility T = Some (n_mark, Xs') /\
    (Xs', n_mark) = mark_from (outlier xs views T visibility) 0 Xs /\
    length Xs' = length Xs /\
    forall j X,
      Xs !! j = Some X ->
      Xs' !! j = Some (if outlier xs views T visibility j X
                       then Point3d.negate_z X else X).
Proof.
  intros HT%DoubleFacts.positive_not_le_zero Hwf HS.
  rewrite mark_enabled by exact HT.
  rewrite (loop_closed_form _ _ _ _ _ Hwf HS). cbn [mbind option_bind].
  eexists _, _. split; [reflexivity|]. split; [by destruct (mark_from _ _ _)|].
  split; [apply mark_from_length|].
  intros j X EX. by rewrite mark_from_lookup, EX.
Qed.

(** X11. Under the same conditions the count returned is the number of
    points whose validity flag the call has turned from valid to invalid. *)
Theorem markNoisyPoints_counts_flips Xs xs views visibility T n_mark Xs' :
  (0 <? T)%float = true ->
  well_formed Xs xs views visibility = true -> Forall signed_z Xs ->
  mark Xs xs views visibility T = Some (n_mark, Xs') ->
  n_mark = flipped Xs Xs'.
Proof.
  intros HT%DoubleFacts.positive_not_le_zero Hwf HS.
  rewrite mark_enabled by exact HT.
  rewrite (loop_closed_form _ _ _ _ _ Hwf HS). cbn [mbind option_bind].
  intros [= <- <-]. symmetry. apply (mark_from_flipped _ _ _ HS).
  intros k X _. apply is_outlier_valid.
Qed.

(** A loop in which no entry finds a valid point above the threshold
    changes nothing. *)
Lemma loop_no_marks xs views T l Xs n :
  Forall (fun e => exists X,
            Xs !! Z.to_nat e.2 = Some X /\
            is_Some (observation xs views e) /\
            negb (invalid X) && exb xs views T X e = false) l ->
  for_each (body xs views T) l (Xs, n) = Some (Xs, n).
Proof.
  induction 1 as [|e l (X & EX & EO & Hb) _ IH]; cbn [for_each]; [reflexivity|].
  rewrite (body_exceedsb xs views T Xs n e X EX EO), Hb. exact IH.
Qed.

(** X12. Under the same conditions the marker is idempotent: a second call
    on the points the first call leaves returns 0 and changes nothing. *)
Theorem markNoisyPoints_idempotent Xs xs views visibility T n_mark Xs' :
  (0 <? T)%float = true ->
  well_formed Xs xs views visibility = true -> Forall signed_z Xs ->
  mark Xs xs views visibility T = Some (n_mark, Xs') ->
  mark Xs' xs views visibility T = Some (0, Xs').
Proof.
  intros HT%DoubleFacts.positive_not_le_zero Hwf HS.
  rewrite !mark_enabled by exact HT.
  rewrite (loop_closed_form _ _ _ _ _ Hwf HS). cbn [mbind option_bind].
  intros [= <- <-].
  rewrite loop_no_marks; [reflexivity|].
  apply Forall_forall. intros e Hin.
  pose proof (well_formed_elem _ _ _ _ _ Hwf Hin) as He.
  apply in_range_lookup in He as [Hlt (view & x & EO)].
  destruct (lookup_lt_is_Some_2 _ _ Hlt) as [X EX].
  assert (HX : signed_z X) by (eapply Forall_lookup_1; eassumption).
  eexists. rewrite mark_from_lookup, EX. cbn [fmap option_fmap option_map Nat.add].
  split; [reflexivity|]. split; [by eexists|].
  destruct (outlier xs views T visibility (Z.to_nat e.2) X) eqn:Em.
  - pose proof (is_outlier_valid _ _ _ _ _ _ Em) as HI.
    destruct HX as [HX|HX]; [congruence|].
    by rewrite (negate_z_invalid X HX).
  - destruct (invalid X) eqn:HI; [reflexivity|]. cbn [negb andb].
    unfold is_outlier in Em. rewrite HI in Em. cbn [negb andb] in Em.
    destruct (exb xs views T X e) eqn:Ee; [|reflexivity].
    rewrite <- Em. symmetry. apply existsb_exists.
    exists e. split; [by apply list_elem_of_In|].
    by rewrite bool_decide_eq_true_2, Ee.
Qed.

(** C3, amended. With a threshold [T <= 0] the marker returns the sentinel
    [-1] and leaves the point vector, hence every validity flag, as it was.
    With [T > 0] it returns, on well-formed inputs, a count that is not
    negative and at most the number of visibility entries, and this count
    is the number of newly marked points (valid before the call, invalid
    after it) when no third coordinate is a zero or NaN; whatever the
    inputs, a value it returns with [T > 0] lies within these bounds. *)
Theorem markNoisyPoints_threshold Xs xs views visibility T :
  ((T <=? 0)%float = true ->
   SFM.markNoisyPoints Matx33d Rodrigues Matx33d_mul Xs xs views visibility T
     = Some (-1, Xs)) /\
  ((0 <? T)%float = true -> well_formed Xs xs views visibility = true ->
   exists n_mark Xs',
     SFM.markNoisyPoints Matx33d Rodrigues Matx33d_mul Xs xs views visibility T
       = Some (n_mark, Xs') /\
     0 <= n_mark <= Z.of_nat (length visibility) /\
     (Forall signed_z Xs -> n_mark = flipped Xs Xs')) /\
  ((0 <? T)%float = true ->
   forall n_mark Xs',
     SFM.markNoisyPoints Matx33d Rodrigues Matx33d_mul Xs xs views visibility T
       = Some (n_mark, Xs') ->
     0 <= n_mark <= Z.of_nat (length visibility)).
Proof.
  split; [apply mark_disabled|]. split.
  - intros HT Hwf. apply DoubleFacts.positive_not_le_zero in HT.
    rewrite mark_enabled by exact HT.
    destruct (loop_total Matx33d Rodrigues Matx33d_mul xs views T visibility Xs 0 Hwf)
      as (Xs' & n' & E).
    rewrite E. exists n', Xs'. split; [reflexivity|]. split.
    + apply loop_marks in E as [_ B]. lia.
    + intros HS. rewrite (loop_closed_form _ _ _ _ _ Hwf HS) in E.
      injection E as E. symmetry.
      replace Xs' with (mark_from (outlier xs views T visibility) 0 Xs).1
        by (by rewrite E).
      replace n' with (mark_from (outlier xs views T visibility) 0 Xs).2
        by (by rewrite E).
      apply (mark_from_flipped _ _ _ HS).
      intros k X _. apply is_outlier_valid.
  - intros HT n_mark Xs'. apply DoubleFacts.positive_not_le_zero in HT.
    rewrite mark_enabled by exact HT.
    destruct (for_each _ _ _) as [[Xs1 n1]|] eqn:E; [|discriminate].
    intros [= <- <-]. apply loop_marks in E as [_ B]. lia.
Qed.

End MarkerExtras.

Section MarkerExtras2.
Variable Matx33d : Type.
Variable Rodrigues : float * float * float -> Matx33d.
Variable Matx33d_mul : Matx33d -> Point3d.t -> Point3d.t.

Local Abbreviation body := (SFM.markNoisyPoints_body Matx33d Rodrigues Matx33d_mul).
Local Abbreviation dist2 := (SFM.reproj_dist2 Matx33d Rodrigues Matx33d_mul).
Local Abbreviation mark := (SFM.markNoisyPoints Matx33d Rodrigues Matx33d_mul).

Implicit Types (Xs : list Point3d.t) (xs : list (list KeyPoint))
  (views : list Vec11d.t) (visible : Z * Z) (X : Point3d.t) (n : Z).

(** X13. A threshold that is NaN or [+infinity] does not disable the
    marker: on well-formed inputs the call runs through the entries,
    returns 0 (not the sentinel) and changes no point. *)
Theorem markNoisyPoints_nan_threshold Xs xs views visibility T :
  T = nan \/ T = infinity ->
  well_formed Xs xs views visibility = true ->
  mark Xs xs views visibility T = Some (0, Xs).
Proof.
  intros HT Hwf.
  rewrite mark_enabled by (apply (double_no_greater T 0 HT)).
  rewrite (loop_no_marks Matx33d Rodrigues Matx33d_mul); [reflexivity|].
  apply Forall_forall. intros e Hin.
  pose proof (well_formed_elem _ _ _ _ _ Hwf Hin) as He.
  apply in_range_lookup in He as [Hlt (view & x & EO)].
  destruct (lookup_lt_is_Some_2 _ _ Hlt) as [X EX].
  exists X. split; [exact EX|]. split; [by eexists|].
  unfold exceedsb. rewrite EO.
  rewrite (proj1 (double_no_greater T _ HT)). apply andb_false_r.
Qed.

(** X14. A call keeps the number of points and changes only points that
    some visibility entry designates: a point no entry refers to is left
    as it is. *)
Theorem markNoisyPoints_leaves_unseen Xs xs views visibility T r Xs' :
  SFM.markNoisyPoints Matx33d Rodrigues Matx33d_mul Xs xs views visibility T
    = Some (r, Xs') ->
  length Xs' = length Xs /\
  forall j, (forall e, e ∈ visibility -> Z.to_nat e.2 <> j) ->
            Xs' !! j = Xs !! j.
Proof.
  destruct (T <=? 0)%float eqn:ET.
  { rewrite mark_disabled by exact ET. by intros [= <- <-]. }
  rewrite mark_enabled by exact ET.
  destruct (for_each _ _ _) as [[Xs1 n1]|] eqn:E; cbn [mbind option_bind]; [|discriminate].
  intros [= <- <-].
  apply (for_each_invariant
           (fun st => length st.1 = length Xs /\
                      forall j, (forall e, e ∈ visibility -> Z.to_nat e.2 <> j) ->
                                st.1 !! j = Xs !! j)) in E; [exact E| |done].
  intros [Xs0 n0] e [Xs2 n2] [Hlen Hun] Hin Hb. cbn [fst] in *.
  apply body_cases in Hb as [[-> ->]|(X & view & x & EX & _ & _ & _ & -> & ->)];
    [done|].
  split; [by rewrite length_insert|].
  intros j Hj. rewrite list_lookup_insert_ne; [by apply Hun|].
  by apply Hj.
Qed.

Lemma loop_count_shift xs views T l Xs n k :
  for_each (body xs views T) l (Xs, n + k)
  = (fun st => (st.1, st.2 + k)) <$> for_each (body xs views T) l (Xs, n).
Proof.
  revert Xs n. induction l as [|e l IH]; intros Xs n; cbn [for_each]; [reflexivity|].
  rewrite !body_unfold.
  destruct (Xs !! Z.to_nat e.2) as [X|]; cbn [mbind option_bind]; [|reflexivity].
  destruct (invalid X); cbn [mbind option_bind]; [apply IH|].
  destruct (observation xs views e) as [vx|]; cbn [mbind option_bind]; [|reflexivity].
  destruct (T <? dist2 vx.1 vx.2 X)%float; cbn [mbind option_bind]; [|apply IH].
  replace (n + k + 1) with (n + 1 + k) by lia. apply IH.
Qed.

(** X15. With an enabled threshold ([T <= 0] false), marking with the
    entries in two batches, the second on the points the first leaves,
    gives the points of one call on the whole enumeration, and the two
    counts add up to its count. *)
Theorem markNoisyPoints_batches Xs xs views l1 l2 T :
  (T <=? 0)%float = false ->
  SFM.markNoisyPoints Matx33d Rodrigues Matx33d_mul Xs xs views (l1 ++ l2) T
  = (r1 ← SFM.markNoisyPoints Matx33d Rodrigues Matx33d_mul Xs xs views l1 T;
     r2 ← SFM.markNoisyPoints Matx33d Rodrigues Matx33d_mul r1.2 xs views l2 T;
     Some (r1.1 + r2.1, r2.2)).
Proof.
  intros HT. rewrite !mark_enabled by exact HT. rewrite for_each_app.
  destruct (for_each (body xs views T) l1 (Xs, 0)) as [[Xs1 n1]|];
    cbn [mbind option_bind fst snd]; [|reflexivity].
  rewrite mark_enabled by exact HT.
  rewrite <- (Z.add_0_l n1) at 1. rewrite loop_count_shift.
  destruct (for_each (body xs views T) l2 (Xs1, 0)) as [[Xs2 n2]|];
    cbn [mbind option_bind fmap option_fmap option_map fst snd]; [|reflexivity].
  do 2 f_equal. lia.
Qed.

(** X16. The builders do not look at the validity flags: the blocks they
    register depend on the point vector through its length only, so they
    are the same before and after a call of the marker, invalid points
    included. *)
Theorem builders_ignore_validity Xs Xs' problem xs views visibility loss_width
    xs0 views0 visibility0 T r :
  mark Xs xs0 views0 visibility0 T = Some (r, Xs') ->
  SFM.addCostFunc11DOF problem Xs' xs views visibility loss_width
  = SFM.addCostFunc11DOF problem Xs xs views visibility loss_width /\
  SFM.addCostFunc7DOF problem Xs' xs views visibility loss_width
  = SFM.addCostFunc7DOF problem Xs xs views visibility loss_width /\
  SFM.addCostFunc6DOF problem Xs' xs views visibility loss_width
  = SFM.addCostFunc6DOF problem Xs xs views visibility loss_width.
Proof.
  intros [HR _]%mark_marks. apply Forall2_length in HR.
  assert (Hsome : forall k, (Xs' !! k ≫= fun _ => Some tt) = (Xs !! k ≫= fun _ => Some tt)).
  { intros k. destruct (decide (k < length Xs)%nat) as [Hlt|Hge].
    - destruct (lookup_lt_is_Some_2 Xs k Hlt) as [X ->].
      rewrite HR in Hlt. by destruct (lookup_lt_is_Some_2 Xs' k Hlt) as [X' ->].
    - rewrite (lookup_ge_None_2 Xs), (lookup_ge_None_2 Xs') by lia. reflexivity. }
  unfold SFM.addCostFunc11DOF, SFM.addCostFunc7DOF, SFM.addCostFunc6DOF.
  repeat split; f_equal; apply for_each_ext; intros p e;
    unfold SFM.addCostFunc11DOF_body, SFM.addCostFunc7DOF_body,
           SFM.addCostFunc6DOF_body;
    specialize (Hsome (Z.to_nat e.2));
    destruct (Xs' !! Z.to_nat e.2), (Xs !! Z.to_nat e.2);
    cbn [mbind option_bind] in *; congruence.
Qed.

End MarkerExtras2.

(** ** The marker and the 11-DOF residual *)

Section MarkerResidual.
Variable Matx33d : Type.
Variable Rodrigues : float * float * float -> Matx33d.
Variable Matx33d_mul : Matx33d -> Point3d.t -> Point3d.t.
Variable AngleAxisRotatePoint :
  float * float * float -> float * float * float -> float * float * float.

(** X17. The squared error the marker compares with the threshold is the
    squared norm of the residual of [ReprojectionError11DOF] for the same
    observation, camera and point, whenever the rotation of Ceres and the
    rotation of OpenCV give the same rotated point. *)
Theorem reproj_dist2_is_residual_norm (view : Vec11d.t) (x : Point2d.t)
    (X : Point3d.t) :
  AngleAxisRotatePoint (view.[0], view.[1], view.[2])
                       (Point3d.x X, Point3d.y X, Point3d.z X)
  = (let RX := Matx33d_mul (Rodrigues (view.[0], view.[1], view.[2])) X in
     (Point3d.x RX, Point3d.y RX, Point3d.z RX)) ->
  SFM.reproj_dist2 Matx33d Rodrigues Matx33d_mul view x X
  = (let r := (ReprojectionError11DOF_call AngleAxisRotatePoint {| x11 := x |}
                 (Vec11d.get view) (Point3d.get X)).2 in
     r.1 * r.1 + r.2 * r.2)%float.
Proof.
  intros Hrot.
  unfold ReprojectionError11DOF_call, ReprojectionError11DOF_predict.
  cbn [Point3d.get Vec11d.get]. cbn [Vec11d.get] in Hrot. rewrite Hrot.
  unfold SFM.reproj_dist2.
  cbn [Vec11d.get Point3d.add Point3d.x Point3d.y Point3d.z
       Point2d.add Point2d.sub Point2d.scale Point2d.x Point2d.y
       of_double s_add s_sub s_mul s_div Scalar_double x11 fst snd].
  set (RX := Matx33d_mul _ X).
  rewrite (double_mul_comm (_ / _) (Vec11d.v6 view * _)).
  rewrite (double_mul_comm (_ / _) (Vec11d.v6 view * _)).
  reflexivity.
Qed.

(** X18. The 7-DOF counterpart of the zero residual: when the prediction of
    [ReprojectionError7DOF] equals the observed pixel and that pixel has
    finite coordinates, the functor returns [true] and writes [(0, 0)]. *)
Theorem zero_residual_7DOF (self : ReprojectionError7DOF)
    (camera point : nat -> float) :
  ReprojectionError7DOF_predict AngleAxisRotatePoint self camera point
    = (Point2d.x (x7 self), Point2d.y (x7 self)) ->
  Double.is_finite (Point2d.x (x7 self)) = true ->
  Double.is_finite (Point2d.y (x7 self)) = true ->
  ReprojectionError7DOF_call AngleAxisRotatePoint self camera point
    = (true, (0, 0)%float).
Proof.
  intros Hp Hx Hy. unfold ReprojectionError7DOF_call. rewrite Hp.
  cbn [of_double s_sub Scalar_double].
  by rewrite (DoubleFacts.sub_diag _ Hx), (DoubleFacts.sub_diag _ Hy).
Qed.

End MarkerResidual.

(** ** Thresholds *)

Lemma SFcompare_finite_cases s1 m1 e1 s2 m2 e2 :
  SFcompare (S754_finite s1 m1 e1) (S754_finite s2 m2 e2)
  = Some match s1, s2 with
         | true, false => Lt
         | false, true => Gt
         | false, false =>
             match Z.compare e1 e2 with
             | Lt => Lt | Gt => Gt | Eq => Pos.compare m1 m2 end
         | true, true =>
             match Z.compare e1 e2 with
             | Lt => Gt | Gt => Lt | Eq => CompOpp (Pos.compare m1 m2) end
         end.
Proof. reflexivity. Qed.

Lemma SF_le_lt_trans a b c :
  SFleb a b = true -> SFltb b c = true -> SFltb a c = true.
Proof.
  unfold SFleb, SFltb.
  destruct a as [sa|sa| |sa ma ea], b as [sb|sb| |sb mb eb], c as [sc|sc| |sc mc ec];
    rewrite ?SFcompare_finite_cases;
    try (cbn; discriminate);
    try (destruct sa; cbn; discriminate);
    try (destruct sb; cbn; discriminate);
    try (destruct sc; cbn; discriminate);
    try (destruct sa, sb; cbn; try discriminate; try reflexivity; fail);
    try (destruct sb, sc; cbn; try discriminate; try reflexivity; fail);
    try (destruct sa, sc; cbn; try discriminate; try reflexivity; fail);
    try (destruct sa, sb, sc; cbn; try discriminate; try reflexivity; fail).
  all: destruct sa, sb, sc; cbn [SFcompare]; try discriminate; try reflexivity;
    destruct (Z.compare_spec ea eb), (Z.compare_spec eb ec), (Z.compare_spec ea ec);
    try discriminate; try reflexivity; try lia;
    destruct (Pos.compare_spec ma mb), (Pos.compare_spec mb mc), (Pos.compare_spec ma mc);
    cbn; try discriminate; try reflexivity; try lia.
Qed.

Lemma double_le_lt_trans (a b c : float) :
  (a <=? b)%float = true -> (b <? c)%float = true -> (a <? c)%float = true.
Proof.
  rewrite FloatAxioms.leb_spec, !FloatAxioms.ltb_spec. apply SF_le_lt_trans.
Qed.

Lemma SF_lt_le_trans a b c :
  SFltb a b = true -> SFleb b c = true -> SFltb a c = true.
Proof.
  unfold SFleb, SFltb.
  destruct a as [sa|sa| |sa ma ea], b as [sb|sb| |sb mb eb], c as [sc|sc| |sc mc ec];
    rewrite ?SFcompare_finite_cases;
    try (cbn; discriminate);
    try (destruct sa; cbn; discriminate);
    try (destruct sb; cbn; discriminate);
    try (destruct sc; cbn; discriminate);
    try (destruct sa, sb; cbn; try discriminate; try reflexivity; fail);
    try (destruct sb, sc; cbn; try discriminate; try reflexivity; fail);
    try (destruct sa, sc; cbn; try discriminate; try reflexivity; fail);
    try (destruct sa, sb, sc; cbn; try discriminate; try reflexivity; fail).
  all: destruct sa, sb, sc; cbn [SFcompare]; try discriminate; try reflexivity;
    destruct (Z.compare_spec ea eb), (Z.compare_spec eb ec), (Z.compare_spec ea ec);
    try discriminate; try reflexivity; try lia;
    destruct (Pos.compare_spec ma mb), (Pos.compare_spec mb mc), (Pos.compare_spec ma mc);
    cbn; try discriminate; try reflexivity; try lia.
Qed.

Lemma double_lt_le_trans (a b c : float) :
  (a <? b)%float = true -> (b <=? c)%float = true -> (a <? c)%float = true.
Proof.
  rewrite FloatAxioms.leb_spec, !FloatAxioms.ltb_spec. apply SF_lt_le_trans.
Qed.


Lemma mark_from_count_mono (m1 m2 : nat -> Point3d.t -> bool) j Xs :
  (forall k X, Xs !! k = Some X -> m2 (j + k)%nat X = true -> m1 (j + k)%nat X = true) ->
  (mark_from m2 j Xs).2 <= (mark_from m1 j Xs).2.
Proof.
  revert j. induction Xs as [|X Xs IH]; intros j Hm; cbn [mark_from]; [reflexivity|].
  assert (IH' : (mark_from m2 (S j) Xs).2 <= (mark_from m1 (S j) Xs).2).
  { apply IH. intros k Y Hk. replace (S j + k)%nat with (j + S k)%nat by lia.
    by apply Hm. }
  specialize (Hm 0%nat X eq_refl). rewrite Nat.add_0_r in Hm.
  destruct (m2 j X) eqn:E2.
  - rewrite (Hm eq_refl). cbn [snd]. lia.
  - destruct (m1 j X); cbn [snd]; lia.
Qed.

Section Monotone.
Variable Matx33d : Type.
Variable Rodrigues : float * float * float -> Matx33d.
Variable Matx33d_mul : Matx33d -> Point3d.t -> Point3d.t.

Local Abbreviation mark := (SFM.markNoisyPoints Matx33d Rodrigues Matx33d_mul).
Local Abbreviation outlier := (is_outlier Matx33d Rodrigues Matx33d_mul).

Lemma is_outlier_mono xs views T1 T2 visibility j X :
  (T1 <=? T2)%float = true ->
  outlier xs views T2 visibility j X = true ->
  outlier xs views T1 visibility j X = true.
Proof.
  intros HT. unfold is_outlier.
  intros [HI (e & Hin & [Hj He]%andb_true_iff)%existsb_exists]%andb_true_iff.
  apply andb_true_iff. split; [exact HI|].
  apply existsb_exists. exists e. split; [exact Hin|].
  apply andb_true_iff. split; [exact Hj|].
  unfold exceedsb in *. destruct (observation xs views e) as [[view x]|]; [|done].
  eapply double_le_lt_trans; eassumption.
Qed.

(** X19. A smaller threshold marks at least the points a larger one marks:
    for [0 < T1 <= T2], well-formed inputs and third coordinates that are
    negative or positive, every point invalid after the call with [T2] is
    invalid after the call with [T1], and the count of [T2] is at most the
    count of [T1]. *)
Theorem markNoisyPoints_threshold_monotone Xs xs views visibility T1 T2 :
  (0 <? T1)%float = true -> (T1 <=? T2)%float = true ->
  well_formed Xs xs views visibility = true -> Forall signed_z Xs ->
  exists n1 Xs1 n2 Xs2,
    mark Xs xs views visibility T1 = Some (n1, Xs1) /\
    mark Xs xs views visibility T2 = Some (n2, Xs2) /\
    n2 <= n1 /\
    forall j X2, Xs2 !! j = Some X2 -> invalid X2 = true ->
                 exists X1, Xs1 !! j = Some X1 /\ invalid X1 = true.
Proof.
  intros HT1 HT Hwf HS.
  pose proof (double_lt_le_trans _ _ _ HT1 HT) as HT2.
  apply DoubleFacts.positive_not_le_zero in HT1, HT2.
  rewrite !mark_enabled by assumption.
  rewrite !(loop_closed_form _ _ _ _ _ _ _ _ Hwf HS). cbn [mbind option_bind].
  eexists _, _, _, _. split; [reflexivity|]. split; [reflexivity|]. split.
  - apply mark_from_count_mono. intros k X _. by apply is_outlier_mono.
  - intros j X2. rewrite !mark_from_lookup. cbn [Nat.add].
    destruct (Xs !! j) as [X|] eqn:EX; [|discriminate].
    cbn [fmap option_fmap option_map]. intros [= <-] HI2.
    eexists. split; [reflexivity|].
    assert (HX : signed_z X) by (eapply Forall_lookup_1; eassumption).
    destruct (outlier xs views T2 visibility j X) eqn:E2.
    + by rewrite (is_outlier_mono _ _ _ _ _ _ _ HT E2).
    + destruct (outlier xs views T1 visibility j X) eqn:E1; [|exact HI2].
      apply is_outlier_valid in E1. congruence.
Qed.

End Monotone.

(** ** Closed examples

    The theorems above at concrete inputs, with the library functions at a
    zero rotation, and the inputs at which the spec's wording fails. *)

Import ZeroRotation.

Local Abbreviation mark0 := (SFM.markNoisyPoints Matx33d Rodrigues Matx33d_mul).

Lemma marker_one_way_witness :
  SFM.markNoisyPoints_body Matx33d Rodrigues Matx33d_mul [] [] 4%float
    ([Point3d.negate_z P501], 0) (0, 0)
  = Some ([Point3d.negate_z P501], 0) /\
  exists X',
    [Point3d.negate_z P501] !! 0%nat = Some X' /\
    (invalid (Point3d.negate_z P501) = true -> X' = Point3d.negate_z P501) /\
    (invalid X' <> invalid (Point3d.negate_z P501) ->
     invalid (Point3d.negate_z P501) = false /\ invalid X' = true).
Proof.
  split.
  - apply (proj1 (marker_one_way Matx33d Rodrigues Matx33d_mul)
             [] [] 4%float [Point3d.negate_z P501] 0 (0, 0)
             (Point3d.negate_z P501));
      reflexivity.
  - apply (proj2 (marker_one_way Matx33d Rodrigues Matx33d_mul) [round; round]
             [Point3d.negate_z P501] [Point3d.negate_z P501] 0%nat
             (Point3d.negate_z P501)); reflexivity.
Defined.

Lemma mark_preserves_magnitude_witness :
  exists X',
    [Point3d.negate_z P501] !! 0%nat = Some X' /\
    Point3d.x X' = Point3d.x P501 /\ Point3d.y X' = Point3d.y P501 /\
    abs (Point3d.z X') = abs (Point3d.z P501) /\
    (X' <> P501 ->
     invalid P501 = false /\
     Point3d.z X' = (Point3d.z P501 * -1)%float /\
     Point3d.negate_z X' = P501).
Proof.
  apply (mark_preserves_magnitude Matx33d Rodrigues Matx33d_mul
           [P501] keypoints [view0] [(0, 0)] 4 1 [Point3d.negate_z P501] 0 P501);
    reflexivity.
Defined.

Lemma mark_outlier_once_witness :
  marked_once Matx33d Rodrigues Matx33d_mul
    [P501] keypoints [view0] [(0, 0); (1, 0)] 4 0 P501.
Proof.
  apply (mark_outlier_once Matx33d Rodrigues Matx33d_mul
           [P501] keypoints [view0] [(0, 0); (1, 0)] 4 0 P501).
  - reflexivity.
  - reflexivity.
  - reflexivity.
  - repeat constructor; by eexists.
  - apply Exists_cons_hd. exists view0, (Point2d.mk 0 0). split; reflexivity.
Defined.

(** C2 as the spec words it fails for a point whose third coordinate is 0:
    the point is visible and valid, its squared error 25 exceeds 4, the
    first call returns 1, but the negation yields a zero, the point stays
    valid and the second call returns 1 again. *)
Lemma mark_outlier_zero_depth_counterexample :
  (0 <? 4)%float = true /\
  [P500] !! 0%nat = Some P500 /\ invalid P500 = false /\
  Forall (fun e => Z.to_nat e.2 = 0%nat /\
                   is_Some (observation keypoints [view0] e)) [(0, 0)] /\
  Exists (exceeds Matx33d Rodrigues Matx33d_mul keypoints [view0] 4 P500)
         [(0, 0)] /\
  mark0 [P500] keypoints [view0] [(0, 0)] 4
    = Some (1, [Point3d.negate_z P500]) /\
  invalid (Point3d.negate_z P500) = false /\
  mark0 [Point3d.negate_z P500] keypoints [view0] [(0, 0)] 4
    = Some (1, [P500]) /\
  ~ marked_once Matx33d Rodrigues Matx33d_mul
      [P500] keypoints [view0] [(0, 0)] 4 0 P500.
Proof.
  split; [reflexivity|]. split; [reflexivity|]. split; [reflexivity|].
  split; [repeat constructor; by eexists|].
  split.
  { apply Exists_cons_hd. exists view0, (Point2d.mk 0 0). split; reflexivity. }
  split; [reflexivity|]. split; [reflexivity|]. split; [reflexivity|].
  intros (_ & H & _). vm_compute in H. discriminate.
Qed.

Lemma zero_depth_counted_again_witness :
  invalid P500 = false /\
  exists z1 z2,
    Double.is_zero z1 = true /\ invalid (with_z P500 z1) = false /\
    mark0 [P500] keypoints [view0] [(0, 0); (1, 0)] 4
    = Some (Z.of_nat (length [(0, 0); (1, 0)]), <[0%nat := with_z P500 z1]> [P500]) /\
    Double.is_zero z2 = true /\ invalid (with_z P500 z2) = false /\
    mark0 (<[0%nat := with_z P500 z1]> [P500]) keypoints [view0] [(0, 0); (1, 0)] 4
    = Some (Z.of_nat (length [(0, 0); (1, 0)]), <[0%nat := with_z P500 z2]> [P500]).
Proof.
  apply (zero_depth_counted_again Matx33d Rodrigues Matx33d_mul
           [P500] keypoints [view0] [(0, 0); (1, 0)] 4 0 P500).
  - reflexivity.
  - reflexivity.
  - reflexivity.
  - repeat constructor.
    + intros z0 Hz. exists view0, (Point2d.mk 0 0). split; [reflexivity|].
      destruct (DoubleFacts.zero_cases z0 Hz) as [-> | ->]; reflexivity.
    + intros z0 Hz. exists view0, (Point2d.mk 1 0). split; [reflexivity|].
      destruct (DoubleFacts.zero_cases z0 Hz) as [-> | ->]; reflexivity.
Defined.

Lemma visibility_order_independent_witness :
  (exists n_mark Xs',
     mark0 [P501; P302] keypoints [view0] [(0, 0); (1, 1)] 4
       = Some (n_mark, Xs') /\
     mark0 [P501; P302] keypoints [view0] [(1, 1); (0, 0)] 4
       = Some (n_mark, Xs')) /\
  (exists blocks1 blocks2,
     SFM.addCostFunc11DOF [] [P501; P302] keypoints [view0] [(0, 0); (1, 1)] 4
       = Some (true, [] ++ blocks1) /\
     SFM.addCostFunc11DOF [] [P501; P302] keypoints [view0] [(1, 1); (0, 0)] 4
       = Some (true, [] ++ blocks2) /\
     blocks1 ≡ₚ blocks2) /\
  (exists blocks1 blocks2,
     SFM.addCostFunc7DOF [] [P501; P302] keypoints [view0] [(0, 0); (1, 1)] 4
       = Some (true, [] ++ blocks1) /\
     SFM.addCostFunc7DOF [] [P501; P302] keypoints [view0] [(1, 1); (0, 0)] 4
       = Some (true, [] ++ blocks2) /\
     blocks1 ≡ₚ blocks2) /\
  (exists blocks1 blocks2,
     SFM.addCostFunc6DOF [] [P501; P302] keypoints [view0] [(0, 0); (1, 1)] 4
       = Some (true, [] ++ blocks1) /\
     SFM.addCostFunc6DOF [] [P501; P302] keypoints [view0] [(1, 1); (0, 0)] 4
       = Some (true, [] ++ blocks2) /\
     blocks1 ≡ₚ blocks2).
Proof.
  destruct (visibility_order_independent Matx33d Rodrigues Matx33d_mul
              [P501; P302] keypoints [view0] [(0, 0); (1, 1)] [(1, 1); (0, 0)]
              4 4 []) as [Hmark Hbuild].
  - reflexivity.
  - apply perm_swap.
  - split; [|exact Hbuild].
    apply Hmark. repeat constructor.
Defined.





(** ** Closed examples of the further properties *)

Lemma addCostFunc11DOF_blocks_witness :
  true = true /\
  exists blocks,
    [ {| cost_func := AutoDiff11DOF {| x11 := Point2d.mk 1 0 |};
         loss_func := Some (CauchyLoss 4);
         view_block := 0; X_block := 1 |} ] = [] ++ blocks /\
    length blocks = length [(1, 1)] /\
    forall k visible,
      [(1, 1)] !! k = Some visible ->
      exists b view x,
        blocks !! k = Some b /\
        observation keypoints [view0] visible = Some (view, x) /\
        cost_func b = AutoDiff11DOF {| x11 := x |} /\
        view_block b = Z.to_nat (Key.getImIdx visible.1) /\
        X_block b = Z.to_nat visible.2 /\
        [view0] !! view_block b = Some view /\
        is_Some ([P501; P302] !! X_block b).
Proof.
  apply (addCostFunc11DOF_blocks [] [P501; P302] keypoints [view0] [(1, 1)] 4).
  reflexivity.
Defined.

Lemma addCostFunc6DOF_blocks_witness :
  true = true /\
  exists blocks,
    [ {| cost_func := ReprojectionError_create (Point2d.mk 0 0) 1 30 40;
         loss_func := None;
         view_block := 0; X_block := 0 |} ] = [] ++ blocks /\
    length blocks = length [(0, 0)] /\
    forall k visible,
      [(0, 0)] !! k = Some visible ->
      exists b view x,
        blocks !! k = Some b /\
        observation keypoints [view1] visible = Some (view, x) /\
        cost_func b = ReprojectionError_create x view.[6] view.[7] view.[8] /\
        view_block b = Z.to_nat (Key.getImIdx visible.1) /\
        X_block b = Z.to_nat visible.2 /\
        [view1] !! view_block b = Some view /\
        is_Some ([P501] !! X_block b).
Proof.
  apply (addCostFunc6DOF_blocks [] [P501] keypoints [view1] [(0, 0)] 0).
  reflexivity.
Defined.

Lemma builders_loss_witness :
  Forall (fun b => loss_func b = Some (CauchyLoss 4))
    [ {| cost_func := create7DOF view0 (Point2d.mk 0 0);
         loss_func := Some (CauchyLoss 4);
         view_block := 0; X_block := 0 |} ] /\
  Forall (fun b => loss_func b = None)
    [ {| cost_func := create6DOF view0 (Point2d.mk 0 0);
         loss_func := None;
         view_block := 0; X_block := 0 |} ].
Proof.
  split.
  - apply (proj1 (builders_loss [] [P501] keypoints [view0] [(0, 0)] 4
                    (SFM.addCostFunc7DOF [] [P501] keypoints [view0] [(0, 0)] 4)
                    (or_intror (or_introl eq_refl)) true _ eq_refl)).
    reflexivity.
  - apply (proj2 (builders_loss [] [P501] keypoints [view0] [(0, 0)] (-1)
                    (SFM.addCostFunc6DOF [] [P501] keypoints [view0] [(0, 0)] (-1))
                    (or_intror (or_intror eq_refl)) true _ eq_refl)).
    left. reflexivity.
Defined.

Lemma builders_same_parameter_blocks_witness :
  exists blocks11 blocks7 blocks6,
    [ {| cost_func := AutoDiff11DOF {| x11 := Point2d.mk 0 0 |};
         loss_func := Some (CauchyLoss 4);
         view_block := 0; X_block := 0 |} ] = [] ++ blocks11 /\
    SFM.addCostFunc7DOF [] [P501] keypoints [view1] [(0, 0)] 4
      = Some (true, [] ++ blocks7) /\
    SFM.addCostFunc6DOF [] [P501] keypoints [view1] [(0, 0)] 4
      = Some (true, [] ++ blocks6) /\
    Forall2 (fun b b' => view_block b = view_block b' /\
                         X_block b = X_block b' /\
                         loss_func b = loss_func b') blocks11 blocks7 /\
    Forall2 (fun b b' => view_block b = view_block b' /\
                         X_block b = X_block b' /\
                         loss_func b = loss_func b') blocks11 blocks6.
Proof.
  apply (builders_same_parameter_blocks [] [P501] keypoints [view1] [(0, 0)] 4 true).
  reflexivity.
Defined.

Lemma addCostFunc11DOF_genKey_witness :
  SFM.addCostFunc11DOF [] [P501; P302] keypoints [view0]
    [(Key.genKey 0 1, 1)] 4
  = Some (true,
          [] ++ [ {| cost_func := AutoDiff11DOF {| x11 := pt {| pt := Point2d.mk 1 0 |} |};
                     loss_func := SFM.make_loss 4;
                     view_block := Z.to_nat 0;
                     X_block := Z.to_nat 1 |} ]).
Proof.
  apply (addCostFunc11DOF_genKey [] [P501; P302] keypoints [view0] 4 0 1 1
           P302 [ {| pt := Point2d.mk 0 0 |}; {| pt := Point2d.mk 1 0 |} ]
           {| pt := Point2d.mk 1 0 |} view0);
    (lia || reflexivity).
Defined.

Lemma signed_scene : Forall signed_z [P501; P302].
Proof. repeat constructor; right; reflexivity. Defined.

Lemma markNoisyPoints_closed_form_witness :
  exists n_mark Xs',
    mark0 [P501; P302] keypoints [view0] [(0, 0); (1, 1)] 4
      = Some (n_mark, Xs') /\
    (Xs', n_mark)
      = mark_from (is_outlier Matx33d Rodrigues Matx33d_mul keypoints [view0] 4
                     [(0, 0); (1, 1)]) 0 [P501; P302] /\
    length Xs' = length [P501; P302] /\
    forall j X,
      [P501; P302] !! j = Some X ->
      Xs' !! j
      = Some (if is_outlier Matx33d Rodrigues Matx33d_mul keypoints [view0] 4
                   [(0, 0); (1, 1)] j X
              then Point3d.negate_z X else X).
Proof.
  apply (markNoisyPoints_closed_form Matx33d Rodrigues Matx33d_mul
           [P501; P302] keypoints [view0] [(0, 0); (1, 1)] 4).
  - reflexivity.
  - reflexivity.
  - exact signed_scene.
Defined.

Lemma markNoisyPoints_counts_flips_witness :
  1 = flipped [P501; P302] [Point3d.negate_z P501; P302].
Proof.
  apply (markNoisyPoints_counts_flips Matx33d Rodrigues Matx33d_mul
           [P501; P302] keypoints [view0] [(0, 0); (1, 1)] 4).
  - reflexivity.
  - reflexivity.
  - exact signed_scene.
  - reflexivity.
Defined.

Lemma markNoisyPoints_idempotent_witness :
  mark0 [Point3d.negate_z P501; P302] keypoints [view0] [(0, 0); (1, 1)] 4
  = Some (0, [Point3d.negate_z P501; P302]).
Proof.
  apply (markNoisyPoints_idempotent Matx33d Rodrigues Matx33d_mul
           [P501; P302] keypoints [view0] [(0, 0); (1, 1)] 4 1).
  - reflexivity.
  - reflexivity.
  - exact signed_scene.
  - reflexivity.
Defined.

Lemma markNoisyPoints_nan_threshold_witness :
  mark0 [P501; P302] keypoints [view0] [(0, 0); (1, 1)] nan
  = Some (0, [P501; P302]).
Proof.
  apply (markNoisyPoints_nan_threshold Matx33d Rodrigues Matx33d_mul
           [P501; P302] keypoints [view0] [(0, 0); (1, 1)] nan).
  - left. reflexivity.
  - reflexivity.
Defined.

Lemma markNoisyPoints_leaves_unseen_witness :
  length [Point3d.negate_z P501; P302] = length [P501; P302] /\
  forall j, (forall e, e ∈ [(0, 0)] -> Z.to_nat e.2 <> j) ->
            [Point3d.negate_z P501; P302] !! j = [P501; P302] !! j.
Proof.
  apply (markNoisyPoints_leaves_unseen Matx33d Rodrigues Matx33d_mul
           [P501; P302] keypoints [view0] [(0, 0)] 4 1).
  reflexivity.
Defined.

Lemma markNoisyPoints_batches_witness :
  mark0 [P501; P302] keypoints [view0] ([(0, 0)] ++ [(1, 1)]) 4
  = (r1 ← mark0 [P501; P302] keypoints [view0] [(0, 0)] 4;
     r2 ← mark0 r1.2 keypoints [view0] [(1, 1)] 4;
     Some (r1.1 + r2.1, r2.2)).
Proof.
  apply (markNoisyPoints_batches Matx33d Rodrigues Matx33d_mul
           [P501; P302] keypoints [view0] [(0, 0)] [(1, 1)] 4).
  reflexivity.
Defined.

Lemma builders_ignore_validity_witness :
  SFM.addCostFunc11DOF [] [Point3d.negate_z P501] keypoints [view0] [(0, 0)] 4
  = SFM.addCostFunc11DOF [] [P501] keypoints [view0] [(0, 0)] 4 /\
  SFM.addCostFunc7DOF [] [Point3d.negate_z P501] keypoints [view0] [(0, 0)] 4
  = SFM.addCostFunc7DOF [] [P501] keypoints [view0] [(0, 0)] 4 /\
  SFM.addCostFunc6DOF [] [Point3d.negate_z P501] keypoints [view0] [(0, 0)] 4
  = SFM.addCostFunc6DOF [] [P501] keypoints [view0] [(0, 0)] 4.
Proof.
  apply (builders_ignore_validity Matx33d Rodrigues Matx33d_mul
           [P501] [Point3d.negate_z P501] [] keypoints [view0] [(0, 0)] 4
           keypoints [view0] [(0, 0)] 4 1).
  reflexivity.
Defined.

Lemma reproj_dist2_is_residual_norm_witness :
  SFM.reproj_dist2 Matx33d Rodrigues Matx33d_mul view0 (Point2d.mk 0 0) P501
  = (let r := (ReprojectionError11DOF_call AngleAxisRotatePoint
                 {| x11 := Point2d.mk 0 0 |}
                 (Vec11d.get view0) (Point3d.get P501)).2 in
     r.1 * r.1 + r.2 * r.2)%float.
Proof.
  apply (reproj_dist2_is_residual_norm Matx33d Rodrigues Matx33d_mul
           AngleAxisRotatePoint view0 (Point2d.mk 0 0) P501).
  reflexivity.
Defined.

Lemma zero_residual_7DOF_witness :
  ReprojectionError7DOF_call AngleAxisRotatePoint
    {| x7 := Point2d.mk 2.5 0; c7 := Point2d.mk 0 0 |}
    (Vec11d.get view0) (Point3d.get P501)
  = (true, (0, 0)%float).
Proof.
  apply (zero_residual_7DOF AngleAxisRotatePoint
           {| x7 := Point2d.mk 2.5 0; c7 := Point2d.mk 0 0 |}
           (Vec11d.get view0) (Point3d.get P501));
    reflexivity.
Defined.

Lemma markNoisyPoints_threshold_monotone_witness :
  exists n1 Xs1 n2 Xs2,
    mark0 [P501; P302] keypoints [view0] [(0, 0); (1, 1)] 4 = Some (n1, Xs1) /\
    mark0 [P501; P302] keypoints [view0] [(0, 0); (1, 1)] 9 = Some (n2, Xs2) /\
    n2 <= n1 /\
    forall j X2, Xs2 !! j = Some X2 -> invalid X2 = true ->
                 exists X1, Xs1 !! j = Some X1 /\ invalid X1 = true.
Proof.
  apply (markNoisyPoints_threshold_monotone Matx33d Rodrigues Matx33d_mul
           [P501; P302] keypoints [view0] [(0, 0); (1, 1)] 4 9).
  - reflexivity.
  - reflexivity.
  - reflexivity.
  - exact signed_scene.
Defined.

(** ** The count of the marker *)

Lemma markNoisyPoints_threshold_witness :
  mark0 [P501; P302] keypoints [view0] [(0, 0); (1, 1)] (-1)
    = Some (-1, [P501; P302]) /\
  (exists n_mark Xs',
     mark0 [P501; P302] keypoints [view0] [(0, 0); (1, 1)] 4
       = Some (n_mark, Xs') /\
     0 <= n_mark <= Z.of_nat (length [(0, 0); (1, 1)]) /\
     n_mark = flipped [P501; P302] Xs') /\
  0 <= 1 <= Z.of_nat (length [(0, 0); (1, 1)]).
Proof.
  split; [|split].
  - apply (proj1 (markNoisyPoints_threshold Matx33d Rodrigues Matx33d_mul
                    [P501; P302] keypoints [view0] [(0, 0); (1, 1)] (-1))).
    reflexivity.
  - destruct (proj1 (proj2 (markNoisyPoints_threshold Matx33d Rodrigues Matx33d_mul
                              [P501; P302] keypoints [view0] [(0, 0); (1, 1)] 4))
                (eq_refl true) (eq_refl true))
      as (n_mark & Xs' & E & B & F).
    exists n_mark, Xs'. split; [exact E|]. split; [exact B|].
    apply F. exact signed_scene.
  - apply (proj2 (proj2 (markNoisyPoints_threshold Matx33d Rodrigues Matx33d_mul
                           [P501; P302] keypoints [view0] [(0, 0); (1, 1)] 4))
             (eq_refl true) 1 [Point3d.negate_z P501; P302]).
    reflexivity.
Defined.

(** C3 as the spec words it fails for a point whose third coordinate is 0:
    with the threshold 4 and two in-range entries of the point (5, 0, 0),
    whose squared errors 25 and 16 exceed it, the call returns 2 while no
    point has become invalid, so the value returned is not the number of
    newly marked points. *)
Lemma markNoisyPoints_count_counterexample :
  (0 <? 4)%float = true /\
  well_formed [P500] keypoints [view0] [(0, 0); (1, 0)] = true /\
  mark0 [P500] keypoints [view0] [(0, 0); (1, 0)] 4 = Some (2, [P500]) /\
  invalid P500 = false /\
  flipped [P500] [P500] = 0 /\
  ~ (forall n_mark Xs',
       mark0 [P500] keypoints [view0] [(0, 0); (1, 0)] 4 = Some (n_mark, Xs') ->
       n_mark = flipped [P500] Xs').
Proof.
  split; [reflexivity|]. split; [reflexivity|]. split; [reflexivity|].
  split; [reflexivity|]. split; [reflexivity|].
  intros H. specialize (H 2 [P500] eq_refl). vm_compute in H. discriminate.
Qed.
